(** * redis-proxy: a shallow embedding of [redis-proxy.py]

    The proxy accepts a Redis client, opens a connection to the upstream
    server, sends [AUTH <password>] on the client's behalf and then copies
    bytes in both directions until one side stops.

    The embedding follows the Python source function by function.  Every
    call on a stream is recorded as an [event]; the result of every [await]
    is supplied by an explicit environment, so that each coroutine is a
    total function from its environment to a trace and a result. *)

From Stdlib Require Import List NArith ZArith Bool Lia.
From Stdlib Require Import Strings.String Strings.Ascii Strings.Byte.
Import ListNotations.

Set Implicit Arguments.

(** ** Bytes and text *)

Definition bytes := list byte.

Fixpoint bytes_eqb (a b : bytes) : bool :=
  match a, b with
  | [], [] => true
  | x :: a', y :: b' => Byte.eqb x y && bytes_eqb a' b'
  | _, _ => false
  end.

(** A Python [str] is a sequence of Unicode code points. *)
Definition pystr := list N.

(** A [str] literal of the source whose characters are all ASCII. *)
Definition lit (s : string) : pystr :=
  map N_of_ascii (list_ascii_of_string s).

(** A [bytes] literal of the source. *)
Definition blit (s : string) : bytes := list_byte_of_string s.

Definition cr : N := 13.
Definition lf : N := 10.
Definition crlf : bytes := [x0d; x0a].

Definition byte_of_N (n : N) : byte :=
  match Byte.of_N (n mod 256) with
  | Some b => b
  | None => x00
  end.

(** [str.encode("utf-8")] on one code point; lone surrogates and values that
    are no code point raise [UnicodeEncodeError], written [None] here. *)
Definition utf8_char (c : N) : option bytes :=
  if (c <? 128)%N then Some [byte_of_N c]
  else if (c <? 2048)%N then
    Some [byte_of_N (192 + c / 64); byte_of_N (128 + c mod 64)]
  else if (c <? 65536)%N then
    if ((55296 <=? c) && (c <=? 57343))%N then None
    else Some [byte_of_N (224 + c / 4096);
               byte_of_N (128 + (c / 64) mod 64);
               byte_of_N (128 + c mod 64)]
  else if (c <? 1114112)%N then
    Some [byte_of_N (240 + c / 262144);
          byte_of_N (128 + (c / 4096) mod 64);
          byte_of_N (128 + (c / 64) mod 64);
          byte_of_N (128 + c mod 64)]
  else None.

Fixpoint encode_utf8 (s : pystr) : option bytes :=
  match s with
  | [] => Some []
  | c :: s' =>
      match utf8_char c, encode_utf8 s' with
      | Some b, Some bs => Some (b ++ bs)
      | _, _ => None
      end
  end.

(** [str(x)] for a value that is either a [str] or [None], as the f-string
    [f"AUTH {password}\r\n"] formats it. *)
Definition format_value (v : option pystr) : pystr :=
  match v with
  | Some s => s
  | None => lit "None"
  end.

(** ** Exceptions *)

Inductive exn : Type :=
| RuntimeError (results : bytes)   (* f"Authentication failed: {results}" *)
| OSError (errno : Z)              (* connection refused, reset, ... *)
| UnicodeEncodeError
| CancelledError.

(** [CancelledError] derives from [BaseException], not from [Exception]; an
    [except Exception] clause lets it through. *)
Definition is_Exception (e : exn) : bool :=
  match e with
  | CancelledError => false
  | _ => true
  end.

(** ** Streams, awaits and events *)

(** The two connections of a session.  A connection has a reader and a writer
    end; [peer_reader]/[peer_writer] belong to [ClientConn], [reader]/[writer]
    of [Client.connect] to [UpstreamConn]. *)
Inductive conn : Type := ClientConn | UpstreamConn.

Definition conn_eqb (a b : conn) : bool :=
  match a, b with
  | ClientConn, ClientConn | UpstreamConn, UpstreamConn => true
  | _, _ => false
  end.

(** What an [await] yields: a value, an exception raised by the awaited
    operation, or a [CancelledError] thrown in by [Task.cancel()]. *)
Inductive await (A : Type) : Type :=
| Ok (a : A)
| Fail (e : exn)
| Cancel.
Arguments Fail {A} e.
Arguments Cancel {A}.

Inductive level : Type := DEBUG | INFO | CRITICAL.

Inductive event : Type :=
| EOpen (host : option pystr) (port : Z) (o : await unit)
| EWrite (c : conn) (data : bytes)
| EDrain (c : conn) (o : await unit)
| ERead (c : conn) (n : N) (o : await bytes)
| EAtEof (c : conn) (b : bool)
| EClose (c : conn)
| EWaitClosed (c : conn) (o : await unit)
| ECreateTask (name : string)
| EWait (done : list string)
| ECancel (name : string)
| EGather (names : list string)
| ELog (logger : string) (lvl : level).

Definition trace := list event.

(** ** Coroutines as trace-producing computations *)

Inductive result (A : Type) : Type :=
| Ret (a : A)
| Exc (e : exn).
Arguments Exc {A} e.

Definition M (A : Type) : Type := (trace * result A)%type.

Definition ret {A} (a : A) : M A := ([], Ret a).
Definition raise {A} (e : exn) : M A := ([], Exc e).
Definition emit (ev : event) : M unit := ([ev], Ret tt).

Definition bind {A B} (m : M A) (k : A -> M B) : M B :=
  match m with
  | (t, Ret a) => let (t', r) := k a in (t ++ t', r)
  | (t, Exc e) => (t, Exc e)
  end.

Declare Scope coro_scope.
Delimit Scope coro_scope with coro.
Notation "x <- m ;; k" := (bind m (fun x => k))
  (at level 100, m at next level, right associativity) : coro_scope.
Notation "m ;; k" := (bind m (fun _ => k))
  (at level 100, right associativity) : coro_scope.
Open Scope coro_scope.

(** The value of an [await] whose outcome is [o]. *)
Definition awaited {A} (o : await A) : M A :=
  match o with
  | Ok a => ret a
  | Fail e => raise e
  | Cancel => raise CancelledError
  end.

(** [try: body finally: fin].  An exception raised by [fin] replaces whatever
    [body] produced; otherwise the result of [body] stands. *)
Definition try_finally {A} (body : M A) (fin : M unit) : M A :=
  let (t, r) := body in
  match fin with
  | (t', Ret _) => (t ++ t', r)
  | (t', Exc e) => (t ++ t', Exc e)
  end.

(** [try: body except Exception as exc: handler exc]. *)
Definition try_except_Exception (body : M unit) (handler : exn -> M unit)
  : M unit :=
  match body with
  | (t, Ret a) => (t, Ret a)
  | (t, Exc e) =>
      if is_Exception e
      then let (t', r) := handler e in (t ++ t', r)
      else (t, Exc e)
  end.

(** Stream operations. *)
Definition write (c : conn) (data : bytes) : M unit := emit (EWrite c data).
Definition drain (c : conn) (o : await unit) : M unit :=
  emit (EDrain c o) ;; awaited o.
Definition read (c : conn) (n : N) (o : await bytes) : M bytes :=
  emit (ERead c n o) ;; awaited o.
Definition at_eof (c : conn) (b : bool) : M bool :=
  emit (EAtEof c b) ;; ret b.
Definition close (c : conn) : M unit := emit (EClose c).
Definition wait_closed (c : conn) (o : await unit) : M unit :=
  emit (EWaitClosed c o) ;; awaited o.
Definition log (logger : string) (lvl : level) : M unit :=
  emit (ELog logger lvl).

(** ** [class Pipe] *)

Record Pipe : Type := mkPipe {
  reader : conn;
  writer : conn;
  direction : string
}.

Definition pipe_logger (p : Pipe) : string := "pipe " ++ direction p.

(** The environment of one pass through the [while] body: what
    [reader.read(2**16)] yields and, when the pass gets that far, what
    [writer.drain()] yields. *)
Inductive iter : Type := Iter (rd : await bytes) (dr : await unit).

(** The environment of one run of [Pipe.flow]: the passes for which
    [reader.at_eof()] is false, in order (after them [at_eof()] is true),
    and what [writer.wait_closed()] yields in the [finally] block. *)
Record pipe_env : Type := mkPipeEnv {
  iters : list iter;
  closing : await unit
}.

Definition chunk_size : N := 2 ^ 16.

(** The [while not self.reader.at_eof(): ...] loop of [Pipe.flow]. *)
Fixpoint flow_loop (p : Pipe) (its : list iter) : M unit :=
  match its with
  | [] => at_eof (reader p) true ;; ret tt
  | Iter rd dr :: rest =>
      at_eof (reader p) false ;;
      data <- read (reader p) chunk_size rd ;;
      if bytes_eqb data []
      then log (pipe_logger p) DEBUG ;; ret tt
      else
        log (pipe_logger p) INFO ;;
        write (writer p) data ;;
        drain (writer p) dr ;;
        flow_loop p rest
  end.

(** [Pipe.flow]. *)
Definition flow (p : Pipe) (env : pipe_env) : M unit :=
  try_finally
    (flow_loop p (iters env))
    (close (writer p) ;; wait_closed (writer p) (closing env)).

(** ** [class Client] *)

Definition ok_reply : bytes := blit "+OK" ++ crlf.
Definition wrongpass : bytes :=
  blit "-WRONGPASS unable to auto-authenticate" ++ crlf.

(** [f"AUTH {password}\r\n".encode("utf-8")]. *)
Definition auth_command (password : option pystr) : option bytes :=
  encode_utf8 (lit "AUTH " ++ format_value password ++ [cr; lf]).

(** Which of the two relay tasks are in [done] when [asyncio.wait] returns. *)
Inductive race : Type := S2CFirst | C2SFirst | BothDone.

(** The environment of one session: the outcome of every [await] of
    [Client.connect], [Client.authenticate] and [Server.handle_server], and
    the environments of the two relay tasks. *)
Record session_env : Type := mkSessionEnv {
  open_result : await unit;      (* asyncio.open_connection *)
  auth_drain : await unit;       (* writer.drain() after AUTH *)
  auth_read : await bytes;       (* reader.read(1024) *)
  reject_drain : await unit;     (* peer_writer.drain() after -WRONGPASS *)
  first_completed : race;        (* asyncio.wait(..., FIRST_COMPLETED) *)
  s2c_env : pipe_env;
  c2s_env : pipe_env;
  upstream_wait_closed : await unit;  (* writer.wait_closed() in connect *)
  client_wait_closed : await unit     (* writer.wait_closed() in handle_server *)
}.

(** [Client.authenticate(password, reader, writer)]; [peer] is
    [self.peer_writer], [up] the upstream [reader]/[writer] pair. *)
Definition authenticate (peer up : conn) (password : option pystr)
    (env : session_env) : M unit :=
  log "client" DEBUG ;;
  match auth_command password with
  | None => raise UnicodeEncodeError
  | Some cmd =>
      write up cmd ;;
      drain up (auth_drain env) ;;
      results <- read up 1024 (auth_read env) ;;
      if negb (bytes_eqb results ok_reply)
      then
        write peer wrongpass ;;
        drain peer (reject_drain env) ;;
        raise (RuntimeError results)
      else log "client" DEBUG
  end.

Definition c2s : Pipe := mkPipe ClientConn UpstreamConn ">>".
Definition s2c : Pipe := mkPipe UpstreamConn ClientConn "<<".

(** The two relay tasks of a session, each a coroutine of its own. *)
Definition s2c_task (env : session_env) : M unit := flow s2c (s2c_env env).
Definition c2s_task (env : session_env) : M unit := flow c2s (c2s_env env).

Definition done_tasks (r : race) : list string :=
  match r with
  | S2CFirst => ["s2c"%string]
  | C2SFirst => ["c2s"%string]
  | BothDone => ["s2c"%string; "c2s"%string]
  end.

Definition pending_tasks (r : race) : list string :=
  match r with
  | S2CFirst => ["c2s"%string]
  | C2SFirst => ["s2c"%string]
  | BothDone => []
  end.

Definition task_result (env : session_env) (name : string) : result unit :=
  if String.eqb name "s2c" then snd (s2c_task env) else snd (c2s_task env).

(** [for task in pending: task.cancel()]. *)
Fixpoint cancel_all (names : list string) : M unit :=
  match names with
  | [] => ret tt
  | n :: rest => emit (ECancel n) ;; cancel_all rest
  end.

(** [await asyncio.gather] over the pending tasks: without
    [return_exceptions], the first awaitable that ends in an exception, or
    cancelled, makes the [await] raise that exception. *)
Fixpoint gather_results (env : session_env) (names : list string) : M unit :=
  match names with
  | [] => ret tt
  | n :: rest =>
      match task_result env n with
      | Ret _ => gather_results env rest
      | Exc e => raise e
      end
  end.

Definition gather (env : session_env) (names : list string) : M unit :=
  emit (EGather names) ;; gather_results env names.

(** [Client.connect(hostname, port, password)]. *)
Definition connect (peer : conn) (hostname : option pystr) (port : Z)
    (password : option pystr) (env : session_env) : M unit :=
  log "client" INFO ;;
  emit (EOpen hostname port (open_result env)) ;;
  awaited (open_result env) ;;
  authenticate peer UpstreamConn password env ;;
  emit (ECreateTask "s2c") ;;
  emit (ECreateTask "c2s") ;;
  emit (EWait (done_tasks (first_completed env))) ;;
  let pending := pending_tasks (first_completed env) in
  cancel_all pending ;;
  gather env pending ;;
  log "client" INFO ;;
  close UpstreamConn ;;
  wait_closed UpstreamConn (upstream_wait_closed env).

(** ** [class UpstreamClientFactory] and [class Server] *)

Record UpstreamClientFactory : Type := mkFactory {
  hostname : option pystr;
  port : Z;
  password : option pystr
}.

(** [UpstreamClientFactory.connect(reader, writer)]: logs, and returns the
    coroutine [client.connect(...)], which [handle_server] then awaits. *)
Definition factory_connect (f : UpstreamClientFactory) (peer : conn)
    (env : session_env) : M (M unit) :=
  log "client-factory" INFO ;;
  ret (connect peer (hostname f) (port f) (password f) env).

(** [Server.handle_server(reader, writer)]. *)
Definition handle_server (f : UpstreamClientFactory) (env : session_env)
  : M unit :=
  client <- factory_connect f ClientConn env ;;
  try_except_Exception client (fun _ => log "server" CRITICAL) ;;
  close ClientConn ;;
  wait_closed ClientConn (client_wait_closed env).

(** ** Command line and start-up *)

(** A port as Python holds it: [type=int] gives an [int], an option without
    [type] a [str]. *)
Inductive pyport : Type := PortInt (n : Z) | PortStr (s : pystr).

(** The options given on the command line; [None] when an option is absent. *)
Record options : Type := mkOptions {
  opt_upstream_address : option pystr;
  opt_upstream_password : option pystr;
  opt_upstream_port : option Z;
  opt_listen_address : option pystr;
  opt_listen_port : option pystr;
  opt_v : nat
}.

(** The namespace [parser.parse_args()] returns. *)
Record args : Type := mkArgs {
  upstream_address : option pystr;
  upstream_password : option pystr;
  upstream_port : Z;
  listen_address : pystr;
  listen_port : pyport;
  verbosity : list Z
}.

Definition default {A} (d : A) (o : option A) : A :=
  match o with
  | Some a => a
  | None => d
  end.

Definition logging_ERROR : Z := 40.

(** The [add_argument] calls of [cli] with their defaults. *)
Definition parse_args (o : options) : args :=
  {| upstream_address := opt_upstream_address o;
     upstream_password := opt_upstream_password o;
     upstream_port := default 6379%Z (opt_upstream_port o);
     listen_address := default (lit "127.0.0.1") (opt_listen_address o);
     listen_port := PortStr (default (lit "6379") (opt_listen_port o));
     verbosity := logging_ERROR :: repeat (-10)%Z (opt_v o) |}.

(** What [asyncio.start_server] is asked to listen on. *)
Record listening : Type := mkListening {
  bind_host : pystr;
  bind_port : pyport;
  factory : UpstreamClientFactory
}.

(** [Server.serve_forever(hostname="127.0.0.1", port=6378)]; an argument the
    caller leaves out is [None] here. *)
Definition serve_forever (f : UpstreamClientFactory)
    (hostname : option pystr) (port : option pyport) : listening :=
  {| bind_host := default (lit "127.0.0.1") hostname;
     bind_port := default (PortInt 6378) port;
     factory := f |}.

(** [main(args)]. *)
Definition main (a : args) : listening :=
  let client_factory :=
    mkFactory (upstream_address a) (upstream_port a) (upstream_password a) in
  serve_forever client_factory (Some (listen_address a)) (Some (listen_port a)).

(** The value of a string of decimal digits, as the socket layer resolves a
    numeric service name. *)
Fixpoint decimal (acc : Z) (s : pystr) : option Z :=
  match s with
  | [] => Some acc
  | c :: s' =>
      if ((48 <=? c) && (c <=? 57))%N
      then decimal (10 * acc + Z.of_N (c - 48)) s'
      else None
  end.

(** The TCP port number a listening socket bound to [p] gets, for the two
    shapes [main] can hand over from its defaults: an [int] within range,
    and a [str] of plain decimal digits such as ["6379"].  What the resolver
    does with any other string (a service name, signs, blanks, the empty
    string) or with an [int] out of range is not modelled. *)
Definition port_number (p : pyport) : option Z :=
  match p with
  | PortInt n => Some n
  | PortStr [] => None
  | PortStr s => decimal 0 s
  end.

(** ** Observations on traces *)

(** How many times [close()] is called on the writer of [c]. *)
Fixpoint closes (c : conn) (tr : trace) : nat :=
  match tr with
  | [] => 0
  | EClose c' :: tr' => (if conn_eqb c c' then 1 else 0) + closes c tr'
  | _ :: tr' => closes c tr'
  end.

(** The bytes written to [c], in the order of the [write] calls. *)
Fixpoint written (c : conn) (tr : trace) : bytes :=
  match tr with
  | [] => []
  | EWrite c' data :: tr' =>
      (if conn_eqb c c' then data else []) ++ written c tr'
  | _ :: tr' => written c tr'
  end.

(** How many [read] calls are made on the reader of [c]. *)
Fixpoint reads (c : conn) (tr : trace) : nat :=
  match tr with
  | [] => 0
  | ERead c' _ _ :: tr' => (if conn_eqb c c' then 1 else 0) + reads c tr'
  | _ :: tr' => reads c tr'
  end.

(** One pass of the relay loop that moves the chunk [data]. *)
Definition relay_round (p : Pipe) (data : bytes) : trace :=
  [ EAtEof (reader p) false;
    ERead (reader p) chunk_size (Ok data);
    ELog (pipe_logger p) INFO;
    EWrite (writer p) data;
    EDrain (writer p) (Ok tt) ].

(** The source delivers [chunks], each flushed without error. *)
Definition feed (chunks : list bytes) : list iter :=
  map (fun data => Iter (Ok data) (Ok tt)) chunks.

(** The part of [Client.connect] that follows the authentication: the two
    relay tasks, the race, the cancellation and the explicit close. *)
Definition relaying (env : session_env) : M unit :=
  emit (ECreateTask "s2c") ;;
  emit (ECreateTask "c2s") ;;
  emit (EWait (done_tasks (first_completed env))) ;;
  let pending := pending_tasks (first_completed env) in
  cancel_all pending ;;
  gather env pending ;;
  log "client" INFO ;;
  close UpstreamConn ;;
  wait_closed UpstreamConn (upstream_wait_closed env).

(** Everything that happens in one session: the actions of the task that
    runs [handle_server] and, when [Client.connect] gets as far as creating
    them, those of the two relay tasks.  The three tasks interleave; each
    writer is used by one task at a time, so what is observed per connection
    does not depend on the interleaving. *)
Definition relays_started (tr : trace) : bool :=
  existsb (fun ev => match ev with ECreateTask _ => true | _ => false end) tr.

Definition session_events (f : UpstreamClientFactory) (env : session_env)
  : trace :=
  let main_trace := fst (handle_server f env) in
  if relays_started main_trace
  then main_trace ++ fst (s2c_task env) ++ fst (c2s_task env)
  else main_trace.

(** ** Sample sessions *)

Definition ECONNRESET : Z := 104.
Definition ECONNREFUSED : Z := 111.

Definition with_password : UpstreamClientFactory :=
  mkFactory (Some (lit "10.0.0.5")) 6379 (Some (lit "secret")).

Definition without_password : UpstreamClientFactory :=
  mkFactory (Some (lit "10.0.0.5")) 6379 None.

(** The client sends one command and closes; the upstream relay is still
    waiting in [read] when it is cancelled. *)
Definition client_closes_first : session_env :=
  {| open_result := Ok tt;
     auth_drain := Ok tt;
     auth_read := Ok ok_reply;
     reject_drain := Ok tt;
     first_completed := C2SFirst;
     s2c_env := {| iters := [Iter (Ok (blit "+PONG" ++ crlf)) (Ok tt);
                             Iter Cancel (Ok tt)];
                   closing := Ok tt |};
     c2s_env := {| iters := [Iter (Ok (blit "PING" ++ crlf)) (Ok tt);
                             Iter (Ok []) (Ok tt)];
                   closing := Ok tt |};
     upstream_wait_closed := Ok tt;
     client_wait_closed := Ok tt |}.

(** The upstream answers the AUTH request with an error. *)
Definition upstream_rejects : session_env :=
  {| open_result := Ok tt;
     auth_drain := Ok tt;
     auth_read := Ok (blit "-ERR invalid password" ++ crlf);
     reject_drain := Ok tt;
     first_completed := BothDone;
     s2c_env := {| iters := []; closing := Ok tt |};
     c2s_env := {| iters := []; closing := Ok tt |};
     upstream_wait_closed := Ok tt;
     client_wait_closed := Ok tt |}.

(** Both peers have reached end of stream when the race is decided. *)
Definition both_sides_close : session_env :=
  {| open_result := Ok tt;
     auth_drain := Ok tt;
     auth_read := Ok ok_reply;
     reject_drain := Ok tt;
     first_completed := BothDone;
     s2c_env := {| iters := [Iter (Ok []) (Ok tt)]; closing := Ok tt |};
     c2s_env := {| iters := [Iter (Ok []) (Ok tt)]; closing := Ok tt |};
     upstream_wait_closed := Ok tt;
     client_wait_closed := Ok tt |}.

(** The client connection is reset while the client relay reads; the
    upstream relay is cancelled in its own read. *)
Definition client_relay_fails : session_env :=
  {| open_result := Ok tt;
     auth_drain := Ok tt;
     auth_read := Ok ok_reply;
     reject_drain := Ok tt;
     first_completed := C2SFirst;
     s2c_env := {| iters := [Iter Cancel (Ok tt)]; closing := Ok tt |};
     c2s_env := {| iters := [Iter (Fail (OSError ECONNRESET)) (Ok tt)];
                   closing := Ok tt |};
     upstream_wait_closed := Ok tt;
     client_wait_closed := Ok tt |}.

(** Nothing listens at the upstream address. *)
Definition upstream_unreachable : session_env :=
  {| open_result := Fail (OSError ECONNREFUSED);
     auth_drain := Ok tt;
     auth_read := Ok ok_reply;
     reject_drain := Ok tt;
     first_completed := BothDone;
     s2c_env := {| iters := []; closing := Ok tt |};
     c2s_env := {| iters := []; closing := Ok tt |};
     upstream_wait_closed := Ok tt;
     client_wait_closed := Ok tt |}.

(** A full chunk: [2**16] bytes, as one [read] returns them while the
    upstream sends a long reply. *)
Definition bulk : bytes := repeat "x"%byte (N.to_nat chunk_size).

(** The client asks for a long reply and does not read it.  The upstream
    relay hands over a first chunk, which stays in the buffer of the client
    writer; with the second chunk that buffer is above its high-water mark,
    so the relay waits in [drain].  The client then closes its sending side:
    the client relay reads end of stream, closes the upstream writer and
    completes first.  The upstream relay is cancelled where it waits, in
    [drain]; its cleanup completes once the client reads what is left. *)
Definition client_closes_under_backpressure : session_env :=
  {| open_result := Ok tt;
     auth_drain := Ok tt;
     auth_read := Ok ok_reply;
     reject_drain := Ok tt;
     first_completed := C2SFirst;
     s2c_env := {| iters := [Iter (Ok bulk) (Ok tt);
                             Iter (Ok bulk) Cancel];
                   closing := Ok tt |};
     c2s_env := {| iters := [Iter (Ok (blit "GET big" ++ crlf)) (Ok tt);
                             Iter (Ok []) (Ok tt)];
                   closing := Ok tt |};
     upstream_wait_closed := Ok tt;
     client_wait_closed := Ok tt |}.

(** The same client, but the upstream connection is reset while the
    upstream relay waits in [drain] on the client writer.  The client sends
    one more command: the client relay writes it to the lost connection, its
    [drain] raises the reset and so does [wait_closed] in its cleanup.  The
    client relay has failed and completes first; the upstream relay is
    cancelled in [drain]. *)
Definition upstream_lost_under_backpressure : session_env :=
  {| open_result := Ok tt;
     auth_drain := Ok tt;
     auth_read := Ok ok_reply;
     reject_drain := Ok tt;
     first_completed := C2SFirst;
     s2c_env := {| iters := [Iter (Ok bulk) (Ok tt);
                             Iter (Ok bulk) Cancel];
                   closing := Ok tt |};
     c2s_env := {| iters := [Iter (Ok (blit "GET big" ++ crlf)) (Ok tt);
                             Iter (Ok (blit "PING" ++ crlf))
                                  (Fail (OSError ECONNRESET))];
                   closing := Fail (OSError ECONNRESET) |};
     upstream_wait_closed := Ok tt;
     client_wait_closed := Ok tt |}.

(** A command line that names the upstream and leaves the listener alone. *)
Definition upstream_only : options :=
  {| opt_upstream_address := Some (lit "10.0.0.5");
     opt_upstream_password := Some (lit "secret");
     opt_upstream_port := None;
     opt_listen_address := None;
     opt_listen_port := None;
     opt_v := 2 |}.

(** ** Further observations *)

(** The bytes the reads on [c] returned, in the order of the [read] calls. *)
Fixpoint received (c : conn) (tr : trace) : bytes :=
  match tr with
  | [] => []
  | ERead c' _ (Ok data) :: tr' =>
      (if conn_eqb c c' then data else []) ++ received c tr'
  | _ :: tr' => received c tr'
  end.

(** What one action of [Pipe.flow] may be: a test or a read of at most
    [2**16] bytes on its reader, a write, drain, close or wait on its
    writer, or a record on its own logger. *)
Definition relay_action (p : Pipe) (ev : event) : Prop :=
  match ev with
  | EAtEof c _ => c = reader p
  | ERead c n _ => c = reader p /\ n = chunk_size
  | EWrite c _ | EDrain c _ | EClose c | EWaitClosed c _ => c = writer p
  | ELog logger _ => logger = pipe_logger p
  | EOpen _ _ _ | ECreateTask _ | EWait _ | ECancel _ | EGather _ => False
  end.

(** The numeric value of a logging level. *)
Definition levelno (l : level) : Z :=
  match l with
  | DEBUG => 10
  | INFO => 20
  | CRITICAL => 50
  end.

(** [level = sum(args.verbosity)] in [cli]. *)
Definition log_level (a : args) : Z := fold_right Z.add 0%Z (verbosity a).

(** Whether a record of level [l] passes the threshold that
    [logging.basicConfig(level=level)] sets on the root logger. *)
Definition enabled (a : args) (l : level) : bool :=
  (log_level a <=? levelno l)%Z.

(** * Properties *)

Section Basics.

Lemma bytes_eqb_eq (a b : bytes) : bytes_eqb a b = true <-> a = b.
Proof.
  revert b; induction a as [|x a IH]; intros [|y b]; simpl;
    try (split; [discriminate | congruence]); try tauto.
  rewrite andb_true_iff, IH. split.
  - intros [Hx ->]. now rewrite (Byte.byte_dec_bl _ _ Hx).
  - intros [= -> ->]. split; [now apply Byte.byte_dec_lb | reflexivity].
Qed.

Lemma bytes_eqb_refl (a : bytes) : bytes_eqb a a = true.
Proof. now apply bytes_eqb_eq. Qed.

Lemma bytes_eqb_neq (a b : bytes) : a <> b -> bytes_eqb a b = false.
Proof.
  intros H. destruct (bytes_eqb a b) eqn:E; [|reflexivity].
  now apply bytes_eqb_eq in E.
Qed.

Lemma conn_eqb_refl (c : conn) : conn_eqb c c = true.
Proof. now destruct c. Qed.

Lemma conn_eqb_neq (a b : conn) : a <> b -> conn_eqb a b = false.
Proof. destruct a, b; simpl; congruence. Qed.

Lemma bind_emit {B} (ev : event) (k : unit -> M B) :
  bind (emit ev) k = (ev :: fst (k tt), snd (k tt)).
Proof. unfold bind, emit. now destruct (k tt). Qed.

Lemma bulk_not_empty : bytes_eqb bulk [] = false.
Proof.
  unfold bulk.
  assert (H : N.to_nat chunk_size <> 0) by (unfold chunk_size; lia).
  destruct (N.to_nat chunk_size); [congruence|reflexivity].
Qed.

Lemma closes_app (c : conn) (t1 t2 : trace) :
  closes c (t1 ++ t2) = closes c t1 + closes c t2.
Proof.
  induction t1 as [|ev t1 IH]; simpl; [reflexivity|].
  destruct ev; rewrite ?IH; lia.
Qed.

Lemma written_app (c : conn) (t1 t2 : trace) :
  written c (t1 ++ t2) = written c t1 ++ written c t2.
Proof.
  induction t1 as [|ev t1 IH]; simpl; [reflexivity|].
  destruct ev; rewrite ?IH, ?app_assoc; reflexivity.
Qed.

End Basics.

Section Relay.

Variable p : Pipe.

Lemma flow_loop_round (data : bytes) (rest : list iter) :
  data <> [] ->
  flow_loop p (Iter (Ok data) (Ok tt) :: rest) =
  (relay_round p data ++ fst (flow_loop p rest), snd (flow_loop p rest)).
Proof.
  intros Hne. cbn [flow_loop]. unfold at_eof, read, log, write, drain.
  repeat (rewrite bind_emit; cbn [fst snd awaited ret bind app]).
  rewrite (bytes_eqb_neq Hne).
  repeat (rewrite bind_emit; cbn [fst snd awaited ret bind app]).
  destruct (flow_loop p rest) as [t r]. reflexivity.
Qed.

Lemma flow_loop_feed (chunks : list bytes) (rest : list iter) :
  Forall (fun data => data <> []) chunks ->
  flow_loop p (feed chunks ++ rest) =
  (flat_map (relay_round p) chunks ++ fst (flow_loop p rest),
   snd (flow_loop p rest)).
Proof.
  induction 1 as [|data chunks Hne _ IH].
  - simpl. now destruct (flow_loop p rest).
  - cbn [feed map app flat_map]. fold (feed chunks).
    rewrite (flow_loop_round _ Hne), IH. cbn [fst snd].
    now rewrite <- app_assoc.
Qed.


End Relay.

Section RelayInvariants.

Variable p : Pipe.

Ltac loop_cases rd dr data E :=
  cbn [flow_loop]; unfold at_eof, read, log, write, drain;
  destruct rd as [data|?|]; cbn;
  [ destruct (bytes_eqb data []) eqn:E; cbn;
    [| destruct dr as [[]|?|]; cbn;
       [ destruct (flow_loop p _) as [? ?]; cbn in * | | ] ] | | ].

Lemma flow_loop_never_closes (c : conn) (its : list iter) :
  closes c (fst (flow_loop p its)) = 0.
Proof.
  induction its as [|[rd dr] rest IH]; [reflexivity|].
  revert IH. loop_cases rd dr data E; auto.
Qed.

Lemma flow_loop_writes (its : list iter) :
  forall pre c data post,
    fst (flow_loop p its) = pre ++ EWrite c data :: post ->
    data <> [] /\ c = writer p /\
    exists pre',
      pre = pre' ++ [ERead (reader p) chunk_size (Ok data);
                     ELog (pipe_logger p) INFO].
Proof.
  induction its as [|[rd dr] rest IH]; intros pre c data post.
  - cbn. intros H. destruct pre as [|? [|? ?]]; discriminate.
  - revert IH. loop_cases rd dr data0 E; intros IH H;
      destruct pre as [|e1 [|e2 [|e3 [|e4 [|e5 pre]]]]];
      try discriminate; cbn in H.
    + injection H as <- <- <- <- <- _. repeat split.
      * intros ->. discriminate.
      * now exists [EAtEof (reader p) false].
    + injection H as <- <- <- <- <- H.
      destruct (IH _ _ _ _ H) as (Hne & Hc & pre' & ->).
      repeat split; auto.
      now exists (relay_round p data0 ++ pre').
    + injection H as <- <- <- <- <- _. repeat split.
      * intros ->. discriminate.
      * now exists [EAtEof (reader p) false].
    + injection H as _ _ _ _ _ H. destruct pre; discriminate.
    + injection H as <- <- <- <- <- _. repeat split.
      * intros ->. discriminate.
      * now exists [EAtEof (reader p) false].
    + injection H as _ _ _ _ _ H. destruct pre; discriminate.
Qed.

End RelayInvariants.

Section Flow.

Variable p : Pipe.

Lemma flow_trace (env : pipe_env) :
  fst (flow p env) =
  fst (flow_loop p (iters env)) ++
  [EClose (writer p); EWaitClosed (writer p) (closing env)].
Proof.
  unfold flow, try_finally, close, wait_closed.
  destruct (flow_loop p (iters env)) as [t r].
  rewrite bind_emit. unfold emit.
  destruct (closing env) as [[]|e|]; reflexivity.
Qed.

Lemma flow_result (env : pipe_env) :
  snd (flow p env) =
  match closing env with
  | Ok _ => snd (flow_loop p (iters env))
  | Fail e => Exc e
  | Cancel => Exc CancelledError
  end.
Proof.
  unfold flow, try_finally, close, wait_closed.
  destruct (flow_loop p (iters env)) as [t r].
  rewrite bind_emit. unfold emit.
  destruct (closing env) as [[]|e|]; reflexivity.
Qed.

Lemma flow_closes_writer (env : pipe_env) :
  closes (writer p) (fst (flow p env)) = 1.
Proof.
  rewrite flow_trace, closes_app, flow_loop_never_closes.
  simpl. now rewrite conn_eqb_refl.
Qed.

(** When [at_eof()] is already true after the last chunk, the loop ends
    without a further read. *)
Lemma flow_stops_at_eof (chunks : list bytes) :
  Forall (fun data => data <> []) chunks ->
  flow p {| iters := feed chunks; closing := Ok tt |} =
  (flat_map (relay_round p) chunks ++
   [EAtEof (reader p) true;
    EClose (writer p); EWaitClosed (writer p) (Ok tt)], Ret tt).
Proof.
  intros H. rewrite (surjective_pairing (flow p _)).
  rewrite flow_trace, flow_result. cbn [iters closing].
  rewrite <- (app_nil_r (feed chunks)), (flow_loop_feed p _ H).
  cbn. now rewrite <- app_assoc.
Qed.

(** A relay cancelled while it waits in [read] runs its cleanup and never
    returns normally: it ends cancelled, or with the error of the cleanup. *)
Lemma flow_cancelled_in_read
    (chunks : list bytes) (d c : await unit) (rest : list iter) :
  Forall (fun data => data <> []) chunks ->
  snd (flow p {| iters := feed chunks ++ Iter Cancel d :: rest;
                 closing := c |}) =
  match c with
  | Fail e => Exc e
  | _ => Exc CancelledError
  end.
Proof.
  intros H. rewrite flow_result. cbn [iters closing].
  rewrite (flow_loop_feed p _ H). now destruct c.
Qed.

End Flow.



Lemma app_split_at (t tail pre : trace) (x : event) (post : trace) :
  t ++ tail = pre ++ x :: post ->
  ~ In x tail ->
  exists post', t = pre ++ x :: post'.
Proof.
  revert t. induction pre as [|a pre IH]; intros [|e t] H Hx; simpl in H.
  - subst tail. now destruct Hx; left.
  - injection H as -> _. now exists t.
  - subst tail. destruct Hx. right. apply in_elt.
  - injection H as -> H. destruct (IH _ H Hx) as [post' ->]. now exists post'.
Qed.

(** C5.  On every exit path of [Pipe.flow] (end of stream, a failing read or
    drain, a cancellation at any await) the last two actions are
    [writer.close()] and [await writer.wait_closed()] on the destination;
    the destination is closed exactly once by the relay and the source
    connection is never closed by it. *)
Theorem flow_closes_destination_only (p : Pipe) (env : pipe_env) :
  reader p <> writer p ->
  (exists body,
     fst (flow p env) =
     body ++ [EClose (writer p); EWaitClosed (writer p) (closing env)])
  /\ closes (writer p) (fst (flow p env)) = 1
  /\ closes (reader p) (fst (flow p env)) = 0.
Proof.
  intros Hne. split; [|split].
  - eexists. apply flow_trace.
  - apply flow_closes_writer.
  - rewrite flow_trace, closes_app, flow_loop_never_closes.
    simpl. now rewrite (conn_eqb_neq Hne).
Qed.

Lemma flow_closes_destination_only_witness :
  reader s2c <> writer s2c
  /\ closes ClientConn
       (fst (flow s2c {| iters := [Iter (Ok (blit "+PONG" ++ crlf)) Cancel];
                         closing := Ok tt |})) = 1
  /\ closes UpstreamConn
       (fst (flow s2c {| iters := [Iter (Ok (blit "+PONG" ++ crlf)) Cancel];
                         closing := Ok tt |})) = 0.
Proof.
  assert (H : reader s2c <> writer s2c) by discriminate.
  split; [exact H|].
  exact (proj2 (@flow_closes_destination_only s2c
                  {| iters := [Iter (Ok (blit "+PONG" ++ crlf)) Cancel];
                     closing := Ok tt |} H)).
Defined.

(** C10.  Every [write] that [Pipe.flow] issues goes to its destination,
    carries a non-empty chunk, and that chunk is exactly what the read
    just before it returned (only the log call lies between them). *)
Theorem flow_writes_what_was_just_read
    (p : Pipe) (env : pipe_env)
    (pre : trace) (c : conn) (data : bytes) (post : trace) :
  fst (flow p env) = pre ++ EWrite c data :: post ->
  data <> [] /\ c = writer p /\
  exists pre',
    pre = pre' ++ [ERead (reader p) chunk_size (Ok data);
                   ELog (pipe_logger p) INFO].
Proof.
  rewrite flow_trace. intros H.
  apply app_split_at in H.
  - destruct H as [post' H]. exact (flow_loop_writes _ _ _ _ _ _ H).
  - intros [H'|[H'|[]]]; discriminate.
Qed.

Lemma flow_writes_what_was_just_read_witness :
  fst (flow c2s {| iters := feed [blit "PING" ++ crlf]; closing := Ok tt |}) =
    [EAtEof ClientConn false;
     ERead ClientConn chunk_size (Ok (blit "PING" ++ crlf));
     ELog (pipe_logger c2s) INFO]
    ++ EWrite UpstreamConn (blit "PING" ++ crlf)
    :: [EDrain UpstreamConn (Ok tt); EAtEof ClientConn true;
        EClose UpstreamConn; EWaitClosed UpstreamConn (Ok tt)]
  /\ blit "PING" ++ crlf <> [].
Proof.
  assert (H : fst (flow c2s {| iters := feed [blit "PING" ++ crlf];
                                closing := Ok tt |}) =
    [EAtEof ClientConn false;
     ERead ClientConn chunk_size (Ok (blit "PING" ++ crlf));
     ELog (pipe_logger c2s) INFO]
    ++ EWrite UpstreamConn (blit "PING" ++ crlf)
    :: [EDrain UpstreamConn (Ok tt); EAtEof ClientConn true;
        EClose UpstreamConn; EWaitClosed UpstreamConn (Ok tt)])
    by reflexivity.
  split; [exact H|].
  exact (proj1 (@flow_writes_what_was_just_read _ _ _ _ _ _ H)).
Defined.

Section Authentication.

Lemma encode_utf8_app (a b : pystr) :
  encode_utf8 (a ++ b) =
  match encode_utf8 a, encode_utf8 b with
  | Some x, Some y => Some (x ++ y)
  | _, _ => None
  end.
Proof.
  induction a as [|c a IH]; simpl.
  - now destruct (encode_utf8 b).
  - rewrite IH. destruct (utf8_char c), (encode_utf8 a), (encode_utf8 b);
      try reflexivity. now rewrite app_assoc.
Qed.

Lemma auth_command_password (pw : pystr) (pb : bytes) :
  encode_utf8 pw = Some pb ->
  auth_command (Some pw) = Some (blit "AUTH " ++ pb ++ crlf).
Proof.
  intros H. unfold auth_command, format_value.
  rewrite !encode_utf8_app, H. reflexivity.
Qed.

Lemma auth_command_None :
  auth_command None = Some (blit "AUTH None" ++ crlf).
Proof. reflexivity. Qed.

Lemma connect_unfold peer host prt pw env :
  connect peer host prt pw env =
  (log "client" INFO ;;
   emit (EOpen host prt (open_result env)) ;;
   awaited (open_result env) ;;
   authenticate peer UpstreamConn pw env ;;
   relaying env).
Proof. reflexivity. Qed.

End Authentication.

(** C3.  For a configured password [pw] (any [str] that UTF-8 can encode),
    [authenticate] writes exactly [AUTH pw\r\n] to the upstream, drains, and
    issues one read of at most 1024 bytes; nothing after that read is a read
    or a write on the upstream.  It returns normally if and only if that
    read returned exactly [+OK\r\n]; on every other outcome it raises. *)
Theorem authenticate_exchange
    (pw : pystr) (pb : bytes) (env : session_env) :
  encode_utf8 pw = Some pb ->
  auth_drain env = Ok tt ->
  exists rest,
    fst (authenticate ClientConn UpstreamConn (Some pw) env) =
      [ELog "client" DEBUG;
       EWrite UpstreamConn (blit "AUTH " ++ pb ++ crlf);
       EDrain UpstreamConn (Ok tt);
       ERead UpstreamConn 1024 (auth_read env)] ++ rest
    /\ reads UpstreamConn rest = 0
    /\ written UpstreamConn rest = []
    /\ (snd (authenticate ClientConn UpstreamConn (Some pw) env) = Ret tt
        <-> auth_read env = Ok ok_reply).
Proof.
  intros Hpw Hdrain. unfold authenticate.
  rewrite (auth_command_password _ Hpw), Hdrain.
  unfold write, drain, read, log.
  destruct (auth_read env) as [r|e|]; cbn -[ok_reply wrongpass].
  - destruct (bytes_eqb r ok_reply) eqn:E; cbn -[ok_reply wrongpass].
    + apply bytes_eqb_eq in E. subst r.
      eexists; repeat split; reflexivity.
    + assert (Hr : Ok r <> Ok ok_reply).
      { intros [= ->]. now rewrite bytes_eqb_refl in E. }
      destruct (reject_drain env) as [[]|e|]; cbn -[ok_reply wrongpass];
        (eexists; split; [reflexivity|]; repeat split;
         try reflexivity; try discriminate; intros; now destruct Hr).
  - eexists; split; [reflexivity|]; repeat split; try discriminate.
  - eexists; split; [reflexivity|]; repeat split; try discriminate.
Qed.

Lemma authenticate_exchange_witness :
  encode_utf8 (lit "secret") = Some (blit "secret")
  /\ auth_drain client_closes_first = Ok tt
  /\ exists rest,
       fst (authenticate ClientConn UpstreamConn (Some (lit "secret"))
              client_closes_first) =
         [ELog "client" DEBUG;
          EWrite UpstreamConn (blit "AUTH " ++ blit "secret" ++ crlf);
          EDrain UpstreamConn (Ok tt);
          ERead UpstreamConn 1024 (Ok ok_reply)] ++ rest.
Proof.
  assert (H1 : encode_utf8 (lit "secret") = Some (blit "secret"))
    by reflexivity.
  assert (H2 : auth_drain client_closes_first = Ok tt) by reflexivity.
  split; [exact H1|split; [exact H2|]].
  destruct (@authenticate_exchange _ _ client_closes_first H1 H2)
    as (rest & Ht & _).
  exists rest. exact Ht.
Defined.

(** C4.  When the single read of the upstream's reply returns bytes other
    than [+OK\r\n], the session task writes [-WRONGPASS unable to
    auto-authenticate\r\n] to the client and awaits the drain before
    anything else happens: no relay is created, nothing else is ever written
    to the client, and no [close()] precedes the notice.  Once the drain has
    completed, [Client.connect] raises the [RuntimeError], [handle_server]
    logs it and only then closes the client connection. *)
Theorem rejection_notice_precedes_close
    (f : UpstreamClientFactory) (cmd r : bytes) (env : session_env) :
  auth_command (password f) = Some cmd ->
  open_result env = Ok tt ->
  auth_drain env = Ok tt ->
  auth_read env = Ok r ->
  r <> ok_reply ->
  exists post,
    fst (handle_server f env) =
      [ELog "client-factory" INFO;
       ELog "client" INFO;
       EOpen (hostname f) (port f) (Ok tt);
       ELog "client" DEBUG;
       EWrite UpstreamConn cmd;
       EDrain UpstreamConn (Ok tt);
       ERead UpstreamConn 1024 (Ok r);
       EWrite ClientConn wrongpass;
       EDrain ClientConn (reject_drain env)] ++ post
    /\ written ClientConn (fst (handle_server f env)) = wrongpass
    /\ relays_started (fst (handle_server f env)) = false
    /\ (reject_drain env = Ok tt ->
        snd (connect ClientConn (hostname f) (port f) (password f) env)
          = Exc (RuntimeError r)
        /\ post = [ELog "server" CRITICAL;
                   EClose ClientConn;
                   EWaitClosed ClientConn (client_wait_closed env)]).
Proof.
  intros Hcmd Hopen Hdrain Hread Hr.
  unfold handle_server, factory_connect, connect, authenticate.
  rewrite Hcmd, Hopen, Hdrain, Hread.
  unfold write, drain, read, log, close, wait_closed.
  cbn -[ok_reply wrongpass bytes_eqb].
  rewrite (bytes_eqb_neq Hr). cbn -[ok_reply wrongpass].
  destruct (reject_drain env) as [[]|e|]; cbn -[ok_reply wrongpass];
    try (destruct e; cbn -[ok_reply wrongpass]);
    try (destruct (client_wait_closed env) as [[]|e'|];
         cbn -[ok_reply wrongpass]);
    (eexists; split; [reflexivity|]; repeat split;
     try apply app_nil_r; try discriminate).
Qed.

Lemma rejection_notice_precedes_close_witness :
  auth_command (password with_password) = Some (blit "AUTH secret" ++ crlf)
  /\ open_result upstream_rejects = Ok tt
  /\ auth_drain upstream_rejects = Ok tt
  /\ auth_read upstream_rejects = Ok (blit "-ERR invalid password" ++ crlf)
  /\ blit "-ERR invalid password" ++ crlf <> ok_reply
  /\ written ClientConn (fst (handle_server with_password upstream_rejects))
     = wrongpass.
Proof.
  assert (H1 : auth_command (password with_password)
               = Some (blit "AUTH secret" ++ crlf)) by reflexivity.
  assert (H2 : open_result upstream_rejects = Ok tt) by reflexivity.
  assert (H3 : auth_drain upstream_rejects = Ok tt) by reflexivity.
  assert (H4 : auth_read upstream_rejects
               = Ok (blit "-ERR invalid password" ++ crlf)) by reflexivity.
  assert (H5 : blit "-ERR invalid password" ++ crlf <> ok_reply)
    by discriminate.
  repeat (split; [assumption|]).
  destruct (@rejection_notice_precedes_close
              with_password _ _ upstream_rejects H1 H2 H3 H4 H5)
    as (post & _ & Hw & _).
  exact Hw.
Defined.

(** C1, as stated, fails: with no password configured a session whose
    upstream is reachable still sends an authentication request, the bytes
    [AUTH None\r\n]. *)
Lemma no_password_still_sends_auth :
  password without_password = None
  /\ In (EWrite UpstreamConn (blit "AUTH None" ++ crlf))
        (fst (handle_server without_password client_closes_first)).
Proof. split; [reflexivity|]. cbn. tauto. Qed.

(** C1, amended.  With no password configured, [Client.connect] runs the
    same authentication step: as soon as the upstream connection is open it
    writes [AUTH None\r\n] (the f-string renders [None]) and drains; the
    relay tasks are created only when that drain completes and the single
    read of the reply returns [+OK\r\n]. *)
Theorem connect_without_password_authenticates
    (host : option pystr) (prt : Z) (env : session_env) :
  open_result env = Ok tt ->
  exists rest,
    fst (connect ClientConn host prt None env) =
      [ELog "client" INFO;
       EOpen host prt (Ok tt);
       ELog "client" DEBUG;
       EWrite UpstreamConn (blit "AUTH None" ++ crlf);
       EDrain UpstreamConn (auth_drain env)] ++ rest
    /\ (relays_started rest = true ->
        auth_drain env = Ok tt /\ auth_read env = Ok ok_reply).
Proof.
  intros Hopen. rewrite connect_unfold, Hopen.
  unfold authenticate. rewrite auth_command_None.
  unfold write, drain, read, log.
  destruct (auth_drain env) as [[]|e|]; cbn -[ok_reply wrongpass relaying];
    try (eexists; split; [reflexivity|]; discriminate).
  destruct (auth_read env) as [r|e|]; cbn -[ok_reply wrongpass relaying];
    try (eexists; split; [reflexivity|]; discriminate).
  destruct (bytes_eqb r ok_reply) eqn:E; cbn -[ok_reply wrongpass relaying].
  - apply bytes_eqb_eq in E. subst r.
    destruct (relaying env) as [t res].
    eexists; split; [reflexivity|]. now intros _.
  - destruct (reject_drain env) as [[]|e|]; cbn -[ok_reply wrongpass];
      (eexists; split; [reflexivity|]; discriminate).
Qed.

Lemma connect_without_password_authenticates_witness :
  open_result client_closes_first = Ok tt
  /\ exists rest,
       fst (connect ClientConn (Some (lit "10.0.0.5")) 6379 None
              client_closes_first) =
         [ELog "client" INFO;
          EOpen (Some (lit "10.0.0.5")) 6379 (Ok tt);
          ELog "client" DEBUG;
          EWrite UpstreamConn (blit "AUTH None" ++ crlf);
          EDrain UpstreamConn (Ok tt)] ++ rest.
Proof.
  assert (H : open_result client_closes_first = Ok tt) by reflexivity.
  split; [exact H|].
  destruct (@connect_without_password_authenticates
              (Some (lit "10.0.0.5")) 6379 client_closes_first H)
    as (rest & Ht & _).
  exists rest. exact Ht.
Defined.

Section Teardown.

Variable env : session_env.

(** What [relaying] does once the race is decided, by who is pending. *)
Lemma relaying_pending_raises (name : string) (e : exn) :
  pending_tasks (first_completed env) = [name] ->
  task_result env name = Exc e ->
  relaying env =
    ([ECreateTask "s2c"; ECreateTask "c2s";
      EWait (done_tasks (first_completed env));
      ECancel name; EGather [name]], Exc e).
Proof.
  intros Hp He. unfold relaying, gather. rewrite Hp.
  cbn -[task_result]. now rewrite He.
Qed.

Lemma relaying_nothing_pending :
  first_completed env = BothDone ->
  fst (relaying env) =
    [ECreateTask "s2c"; ECreateTask "c2s";
     EWait ["s2c"%string; "c2s"%string];
     EGather [];
     ELog "client" INFO;
     EClose UpstreamConn;
     EWaitClosed UpstreamConn (upstream_wait_closed env)].
Proof.
  intros Hb. unfold relaying, gather, log, close, wait_closed. rewrite Hb.
  cbn. now destruct (upstream_wait_closed env) as [[]|e|].
Qed.

Lemma relaying_closes_at_most_once :
  closes UpstreamConn (fst (relaying env)) <= 1.
Proof.
  unfold relaying, gather, log, close, wait_closed.
  destruct (first_completed env); cbn -[task_result];
    try destruct (task_result env _) as [[]|e]; cbn;
    destruct (upstream_wait_closed env) as [[]|e'|]; cbn; lia.
Qed.

Lemma relaying_starts_relays : relays_started (fst (relaying env)) = true.
Proof.
  unfold relaying. rewrite !bind_emit. reflexivity.
Qed.

End Teardown.

Section SessionShape.

Variables (f : UpstreamClientFactory) (env : session_env).

Lemma relays_started_app (t1 t2 : trace) :
  relays_started (t1 ++ t2) = relays_started t1 || relays_started t2.
Proof. apply existsb_app. Qed.

(** Either [connect] stops before the relays exist, without closing the
    upstream, or its trace ends with the whole of [relaying]. *)
Lemma connect_shape :
  (relays_started
     (fst (connect ClientConn (hostname f) (port f) (password f) env))
   = false
   /\ closes UpstreamConn
        (fst (connect ClientConn (hostname f) (port f) (password f) env))
      = 0)
  \/ (exists pre,
        fst (connect ClientConn (hostname f) (port f) (password f) env)
        = pre ++ fst (relaying env)
        /\ closes UpstreamConn pre = 0).
Proof.
  rewrite connect_unfold. unfold authenticate.
  unfold write, drain, read, log.
  destruct (open_result env) as [[]|e|]; cbn -[ok_reply wrongpass relaying auth_command];
    try (left; split; reflexivity).
  destruct (auth_command (password f)) as [cmd|];
    cbn -[ok_reply wrongpass relaying auth_command]; try (left; split; reflexivity).
  destruct (auth_drain env) as [[]|e|]; cbn -[ok_reply wrongpass relaying auth_command];
    try (left; split; reflexivity).
  destruct (auth_read env) as [r|e|]; cbn -[ok_reply wrongpass relaying auth_command];
    try (left; split; reflexivity).
  destruct (bytes_eqb r ok_reply); cbn -[ok_reply wrongpass relaying auth_command].
  - destruct (relaying env) as [t res]. right.
    exists [ELog "client" INFO; EOpen (hostname f) (port f) (Ok tt);
            ELog "client" DEBUG; EWrite UpstreamConn cmd;
            EDrain UpstreamConn (Ok tt); ERead UpstreamConn 1024 (Ok r);
            ELog "client" DEBUG].
    split; reflexivity.
  - destruct (reject_drain env) as [[]|e|]; cbn -[ok_reply wrongpass];
      left; split; reflexivity.
Qed.

Lemma handle_server_shape :
  exists tail,
    fst (handle_server f env) =
      ELog "client-factory" INFO
      :: fst (connect ClientConn (hostname f) (port f) (password f) env)
      ++ tail
    /\ closes UpstreamConn tail = 0
    /\ relays_started tail = false.
Proof.
  unfold handle_server, factory_connect, log, close, wait_closed.
  rewrite bind_emit. cbn [fst snd ret bind app]. 
  destruct (connect ClientConn (hostname f) (port f) (password f) env) as [t [[]|e]]; cbn.
  - destruct (client_wait_closed env) as [[]|e|]; cbn;
      eexists; repeat split; reflexivity.
  - destruct (is_Exception e); cbn.
    + destruct (client_wait_closed env) as [[]|e'|]; cbn;
        (eexists; split;
         [rewrite <- app_assoc; reflexivity | split; reflexivity]).
    + exists []. now rewrite app_nil_r.
Qed.

End SessionShape.

(** C6, at the session of [client_closes_under_backpressure].  The client
    relay reads end of stream and completes first; the upstream relay is
    pending in [drain] on the client writer, is cancelled there, runs its
    cleanup and ends cancelled.  [await asyncio.gather] over the pending
    tasks then raises that [CancelledError] inside [Client.connect]: the
    trace of [connect] ends at the gather, and [connect] issues no
    [close()] on the upstream writer; the only one of the session is that of
    the client relay's cleanup. *)
Theorem relay_cancelled_in_drain_skips_explicit_close :
  pending_tasks (first_completed client_closes_under_backpressure)
  = ["s2c"%string]
  /\ snd (c2s_task client_closes_under_backpressure) = Ret tt
  /\ s2c_task client_closes_under_backpressure =
     ([EAtEof UpstreamConn false;
       ERead UpstreamConn chunk_size (Ok bulk);
       ELog "pipe <<" INFO;
       EWrite ClientConn bulk;
       EDrain ClientConn (Ok tt);
       EAtEof UpstreamConn false;
       ERead UpstreamConn chunk_size (Ok bulk);
       ELog "pipe <<" INFO;
       EWrite ClientConn bulk;
       EDrain ClientConn Cancel;
       EClose ClientConn;
       EWaitClosed ClientConn (Ok tt)],
      Exc CancelledError)
  /\ connect ClientConn (Some (lit "10.0.0.5")) 6379 (Some (lit "secret"))
       client_closes_under_backpressure =
     ([ELog "client" INFO;
       EOpen (Some (lit "10.0.0.5")) 6379 (Ok tt);
       ELog "client" DEBUG;
       EWrite UpstreamConn (blit "AUTH secret" ++ crlf);
       EDrain UpstreamConn (Ok tt);
       ERead UpstreamConn 1024 (Ok ok_reply);
       ELog "client" DEBUG;
       ECreateTask "s2c"; ECreateTask "c2s";
       EWait ["c2s"%string];
       ECancel "s2c";
       EGather ["s2c"%string]],
      Exc CancelledError)
  /\ closes UpstreamConn
       (fst (connect ClientConn (Some (lit "10.0.0.5")) 6379
               (Some (lit "secret")) client_closes_under_backpressure)) = 0
  /\ closes UpstreamConn
       (session_events with_password client_closes_under_backpressure) = 1.
Proof.
  assert (Hs2c : s2c_task client_closes_under_backpressure =
     ([EAtEof UpstreamConn false;
       ERead UpstreamConn chunk_size (Ok bulk);
       ELog "pipe <<" INFO;
       EWrite ClientConn bulk;
       EDrain ClientConn (Ok tt);
       EAtEof UpstreamConn false;
       ERead UpstreamConn chunk_size (Ok bulk);
       ELog "pipe <<" INFO;
       EWrite ClientConn bulk;
       EDrain ClientConn Cancel;
       EClose ClientConn;
       EWaitClosed ClientConn (Ok tt)],
      Exc CancelledError)).
  { unfold s2c_task, flow, client_closes_under_backpressure.
    cbn -[bulk bytes_eqb chunk_size].
    rewrite bulk_not_empty. reflexivity. }
  assert (Hrun : connect ClientConn (Some (lit "10.0.0.5")) 6379
                   (Some (lit "secret")) client_closes_under_backpressure =
     ([ELog "client" INFO;
       EOpen (Some (lit "10.0.0.5")) 6379 (Ok tt);
       ELog "client" DEBUG;
       EWrite UpstreamConn (blit "AUTH secret" ++ crlf);
       EDrain UpstreamConn (Ok tt);
       ERead UpstreamConn 1024 (Ok ok_reply);
       ELog "client" DEBUG;
       ECreateTask "s2c"; ECreateTask "c2s";
       EWait ["c2s"%string];
       ECancel "s2c";
       EGather ["s2c"%string]],
      Exc CancelledError)).
  { rewrite connect_unfold.
    rewrite (@relaying_pending_raises client_closes_under_backpressure
               "s2c" CancelledError eq_refl).
    - reflexivity.
    - unfold task_result. cbn [String.eqb Ascii.eqb Bool.eqb].
      now rewrite Hs2c. }
  split; [reflexivity|].
  split; [reflexivity|].
  split; [exact Hs2c|].
  split; [exact Hrun|].
  split; [now rewrite Hrun|].
  assert (Hmain : fst (handle_server with_password
                         client_closes_under_backpressure) =
                   ELog "client-factory" INFO
                   :: fst (connect ClientConn (Some (lit "10.0.0.5")) 6379
                             (Some (lit "secret"))
                             client_closes_under_backpressure)).
  { unfold handle_server, factory_connect, log.
    rewrite bind_emit. cbn [fst snd ret bind app].
    cbn [hostname port password with_password].
    now rewrite Hrun. }
  unfold session_events. rewrite Hmain, Hrun, Hs2c. reflexivity.
Qed.

(** C7, at the session of [upstream_rejects].  The upstream answers the
    AUTH request with an error: [authenticate] writes the notice to the
    client and raises, [handle_server] logs the error and closes the client
    connection.  No relay is created, so these are all the events of the
    session, and none of them is a [close()] on the upstream writer that
    [open_connection] returned: the success path closes it, this path
    leaves it open. *)
Theorem auth_failure_never_closes_upstream :
  handle_server with_password upstream_rejects =
    ([ELog "client-factory" INFO;
      ELog "client" INFO;
      EOpen (Some (lit "10.0.0.5")) 6379 (Ok tt);
      ELog "client" DEBUG;
      EWrite UpstreamConn (blit "AUTH secret" ++ crlf);
      EDrain UpstreamConn (Ok tt);
      ERead UpstreamConn 1024 (Ok (blit "-ERR invalid password" ++ crlf));
      EWrite ClientConn wrongpass;
      EDrain ClientConn (Ok tt);
      ELog "server" CRITICAL;
      EClose ClientConn;
      EWaitClosed ClientConn (Ok tt)],
     Ret tt)
  /\ session_events with_password upstream_rejects
     = fst (handle_server with_password upstream_rejects)
  /\ ~ In (EClose UpstreamConn)
          (session_events with_password upstream_rejects)
  /\ closes UpstreamConn (session_events with_password upstream_rejects) = 0
  /\ closes ClientConn (session_events with_password upstream_rejects) = 1.
Proof.
  repeat split.
  cbn. intros H. repeat (destruct H as [H|H]; [discriminate|]). exact H.
Qed.

(** X21.  In every session that reaches the relaying phase the upstream
    writer is closed by the cleanup of the client-to-upstream relay, never
    by the other relay, and at most once more by the [writer.close()] at
    the end of [Client.connect]: one or two [close()] calls in all. *)
Theorem upstream_closed_by_relay_cleanup
    (f : UpstreamClientFactory) (env : session_env) :
  relays_started (fst (handle_server f env)) = true ->
  closes UpstreamConn (fst (c2s_task env)) = 1
  /\ closes UpstreamConn (fst (s2c_task env)) = 0
  /\ closes UpstreamConn (session_events f env)
     = 1 + closes UpstreamConn (fst (relaying env))
  /\ closes UpstreamConn (fst (relaying env)) <= 1.
Proof.
  intros Hstart.
  assert (Hc2s : closes UpstreamConn (fst (c2s_task env)) = 1)
    by apply (flow_closes_writer c2s).
  assert (Hs2c : closes UpstreamConn (fst (s2c_task env)) = 0).
  { unfold s2c_task. rewrite flow_trace, closes_app.
    now rewrite flow_loop_never_closes. }
  repeat split; auto using relaying_closes_at_most_once.
  unfold session_events. rewrite Hstart, !closes_app, Hc2s, Hs2c.
  destruct (handle_server_shape f env) as (tail & Hhs & Htail & Hnone).
  rewrite Hhs in Hstart |- *.
  change (ELog "client-factory" INFO :: ?t) with
    ([ELog "client-factory" INFO] ++ t) in Hstart |- *.
  rewrite !relays_started_app, Hnone, orb_false_r in Hstart.
  rewrite !closes_app, Htail.
  destruct (connect_shape f env) as [[Hno _]|(pre & Hrun & Hpre)].
  - simpl in Hstart. congruence.
  - rewrite Hrun, closes_app, Hpre. simpl. lia.
Qed.

Lemma upstream_closed_by_relay_cleanup_witness :
  relays_started (fst (handle_server with_password client_closes_first)) = true
  /\ closes UpstreamConn (session_events with_password client_closes_first)
     = 1 + closes UpstreamConn (fst (relaying client_closes_first)).
Proof.
  assert (H : relays_started
                (fst (handle_server with_password client_closes_first)) = true)
    by reflexivity.
  split; [exact H|].
  exact (proj1 (proj2 (proj2
    (@upstream_closed_by_relay_cleanup with_password client_closes_first H)))).
Defined.

(** C8, at the session of [upstream_lost_under_backpressure].  The client
    relay fails with a connection reset and completes first; the upstream
    relay is pending in [drain], is cancelled and ends cancelled.  What
    leaves [Client.connect] is not the relay's error but the
    [CancelledError] that [await asyncio.gather] raises, which
    [except Exception] does not catch: [handle_server] logs nothing, does
    not reach its [writer.close()], and itself ends in [CancelledError]. *)
Theorem relay_failure_escapes_handle_server :
  snd (c2s_task upstream_lost_under_backpressure) = Exc (OSError ECONNRESET)
  /\ pending_tasks (first_completed upstream_lost_under_backpressure)
     = ["s2c"%string]
  /\ snd (s2c_task upstream_lost_under_backpressure) = Exc CancelledError
  /\ handle_server with_password upstream_lost_under_backpressure =
     ([ELog "client-factory" INFO;
       ELog "client" INFO;
       EOpen (Some (lit "10.0.0.5")) 6379 (Ok tt);
       ELog "client" DEBUG;
       EWrite UpstreamConn (blit "AUTH secret" ++ crlf);
       EDrain UpstreamConn (Ok tt);
       ERead UpstreamConn 1024 (Ok ok_reply);
       ELog "client" DEBUG;
       ECreateTask "s2c"; ECreateTask "c2s";
       EWait ["c2s"%string];
       ECancel "s2c";
       EGather ["s2c"%string]],
      Exc CancelledError)
  /\ ~ In (ELog "server" CRITICAL)
          (fst (handle_server with_password upstream_lost_under_backpressure))
  /\ closes ClientConn
       (fst (handle_server with_password upstream_lost_under_backpressure))
     = 0
  /\ closes ClientConn
       (session_events with_password upstream_lost_under_backpressure)
     = closes ClientConn (fst (s2c_task upstream_lost_under_backpressure))
  /\ closes ClientConn (fst (s2c_task upstream_lost_under_backpressure)) = 1.
Proof.
  assert (Hs2c : snd (s2c_task upstream_lost_under_backpressure)
                 = Exc CancelledError).
  { unfold s2c_task, flow, upstream_lost_under_backpressure.
    cbn -[bulk bytes_eqb chunk_size].
    rewrite bulk_not_empty. reflexivity. }
  assert (Hrun : handle_server with_password upstream_lost_under_backpressure =
     ([ELog "client-factory" INFO;
       ELog "client" INFO;
       EOpen (Some (lit "10.0.0.5")) 6379 (Ok tt);
       ELog "client" DEBUG;
       EWrite UpstreamConn (blit "AUTH secret" ++ crlf);
       EDrain UpstreamConn (Ok tt);
       ERead UpstreamConn 1024 (Ok ok_reply);
       ELog "client" DEBUG;
       ECreateTask "s2c"; ECreateTask "c2s";
       EWait ["c2s"%string];
       ECancel "s2c";
       EGather ["s2c"%string]],
      Exc CancelledError)).
  { unfold handle_server, factory_connect, log.
    rewrite bind_emit. cbn [fst snd ret bind app].
    cbn [hostname port password with_password].
    rewrite connect_unfold.
    rewrite (@relaying_pending_raises upstream_lost_under_backpressure
               "s2c" CancelledError eq_refl).
    - reflexivity.
    - unfold task_result. cbn [String.eqb Ascii.eqb Bool.eqb].
      exact Hs2c. }
  split; [reflexivity|].
  split; [reflexivity|].
  split; [exact Hs2c|].
  split; [exact Hrun|].
  split; [|split; [|split]].
  - rewrite Hrun. cbn. intros H.
    repeat (destruct H as [H|H]; [discriminate|]). exact H.
  - now rewrite Hrun.
  - unfold session_events. rewrite Hrun. cbn [fst relays_started existsb orb].
    rewrite !closes_app.
    unfold c2s_task at 1. rewrite flow_trace, closes_app.
    rewrite flow_loop_never_closes. reflexivity.
  - apply (flow_closes_writer s2c).
Qed.

(** X22.  Every exception of class [Exception] that leaves
    [Client.connect] (the upstream refusing the connection, the
    authentication [RuntimeError], an I/O error) is caught in
    [handle_server]: it is logged at critical level, then the client
    connection is closed and awaited, and the exception goes no further;
    [handle_server] returns normally once [wait_closed] does. *)
Theorem handle_server_catches_Exception
    (f : UpstreamClientFactory) (env : session_env) (e : exn) :
  snd (connect ClientConn (hostname f) (port f) (password f) env) = Exc e ->
  is_Exception e = true ->
  fst (handle_server f env) =
    ELog "client-factory" INFO
    :: fst (connect ClientConn (hostname f) (port f) (password f) env)
    ++ [ELog "server" CRITICAL;
        EClose ClientConn;
        EWaitClosed ClientConn (client_wait_closed env)]
  /\ snd (handle_server f env) = snd (awaited (client_wait_closed env)).
Proof.
  intros Hexc His.
  unfold handle_server, factory_connect, log, close, wait_closed.
  rewrite bind_emit. cbn [fst snd ret bind app].
  destruct (connect ClientConn (hostname f) (port f) (password f) env)
    as [t res].
  cbn in Hexc. subst res. cbn. rewrite His. cbn.
  destruct (client_wait_closed env) as [[]|e'|]; cbn;
    now rewrite <- app_assoc.
Qed.

Lemma handle_server_catches_Exception_witness :
  snd (connect ClientConn (hostname with_password) (port with_password)
         (password with_password) upstream_unreachable)
    = Exc (OSError ECONNREFUSED)
  /\ is_Exception (OSError ECONNREFUSED) = true
  /\ snd (handle_server with_password upstream_unreachable) = Ret tt.
Proof.
  assert (H1 : snd (connect ClientConn (hostname with_password)
                      (port with_password) (password with_password)
                      upstream_unreachable)
               = Exc (OSError ECONNREFUSED)) by reflexivity.
  assert (H2 : is_Exception (OSError ECONNREFUSED) = true) by reflexivity.
  split; [exact H1|split; [exact H2|]].
  exact (proj2 (@handle_server_catches_Exception
                  with_password upstream_unreachable _ H1 H2)).
Defined.

(** C9.  With neither [--listen-address] nor [--listen-port] on the command
    line, [main] asks for a listening socket on host [127.0.0.1] and port
    [6379] (handed over as the string ["6379"], which names TCP port 6379),
    whatever the other options are. *)
Theorem default_listen_binding (o : options) :
  opt_listen_address o = None ->
  opt_listen_port o = None ->
  bind_host (main (parse_args o)) = lit "127.0.0.1"
  /\ bind_port (main (parse_args o)) = PortStr (lit "6379")
  /\ port_number (bind_port (main (parse_args o))) = Some 6379%Z.
Proof.
  intros Ha Hp. unfold main, serve_forever, parse_args.
  cbn [bind_host bind_port listen_address listen_port default].
  rewrite Ha, Hp. repeat split.
Qed.

Lemma default_listen_binding_witness :
  opt_listen_address upstream_only = None
  /\ opt_listen_port upstream_only = None
  /\ port_number (bind_port (main (parse_args upstream_only))) = Some 6379%Z.
Proof.
  assert (Ha : opt_listen_address upstream_only = None) by reflexivity.
  assert (Hp : opt_listen_port upstream_only = None) by reflexivity.
  split; [exact Ha|split; [exact Hp|]].
  exact (proj2 (proj2 (@default_listen_binding upstream_only Ha Hp))).
Defined.

(** * Further properties of [Pipe.flow] *)

Section RelayConservation.

Variable p : Pipe.

Ltac loop_cases rd dr data E :=
  cbn [flow_loop]; unfold at_eof, read, log, write, drain;
  destruct rd as [data|?|]; cbn;
  [ destruct (bytes_eqb data []) eqn:E; cbn;
    [| destruct dr as [[]|?|]; cbn;
       [ destruct (flow_loop p _) as [? ?]; cbn in * | | ] ] | | ].

Lemma received_app (c : conn) (t1 t2 : trace) :
  received c (t1 ++ t2) = received c t1 ++ received c t2.
Proof.
  induction t1 as [|ev t1 IH]; simpl; [reflexivity|].
  destruct ev as [| | |c' n [data|e|]| | | | | | | |];
    rewrite ?IH, ?app_assoc; reflexivity.
Qed.

Lemma flow_loop_conserves (its : list iter) :
  written (writer p) (fst (flow_loop p its)) =
  received (reader p) (fst (flow_loop p its)).
Proof.
  induction its as [|[rd dr] rest IH]; [reflexivity|].
  revert IH. loop_cases rd dr data E; rewrite ?conn_eqb_refl; intros IH;
    try reflexivity.
  - apply bytes_eqb_eq in E. subst data. reflexivity.
  - now rewrite IH.
Qed.

Lemma flow_loop_actions (its : list iter) :
  Forall (relay_action p) (fst (flow_loop p its)).
Proof.
  induction its as [|[rd dr] rest IH].
  - cbn. repeat constructor.
  - revert IH. loop_cases rd dr data E; intros IH;
      repeat (constructor; cbn; auto).
Qed.

Lemma flow_loop_returns (its : list iter) :
  snd (flow_loop p its) = Ret tt <->
  exists chunks,
    Forall (fun data => data <> []) chunks
    /\ (its = feed chunks
        \/ exists d rest, its = feed chunks ++ Iter (Ok []) d :: rest).
Proof.
  split.
  - induction its as [|[rd dr] rest IH].
    + intros _. exists []. split; [constructor|now left].
    + revert IH. loop_cases rd dr data E; intros IH H; try discriminate.
      * apply bytes_eqb_eq in E. subst data.
        exists []. split; [constructor|]. right. now exists dr, rest.
      * destruct (IH H) as (chunks & Hne & Hshape).
        exists (data :: chunks). split.
        -- constructor; [|exact Hne]. intros ->. discriminate.
        -- destruct Hshape as [->|(d & rest' & ->)]; [now left|].
           right. now exists d, rest'.
  - intros (chunks & Hne & [->|(d & rest & ->)]).
    + rewrite <- (app_nil_r (feed chunks)), (flow_loop_feed p _ Hne).
      reflexivity.
    + rewrite (flow_loop_feed p _ Hne). reflexivity.
Qed.

End RelayConservation.

(** X1.  On every exit path of [Pipe.flow], the bytes written to the
    destination are exactly the bytes the reads on the source returned, in
    the same order: nothing is dropped, duplicated or reordered, whatever
    fails or is cancelled. *)
Theorem flow_conserves_bytes (p : Pipe) (env : pipe_env) :
  written (writer p) (fst (flow p env)) =
  received (reader p) (fst (flow p env)).
Proof.
  rewrite flow_trace, written_app, received_app, flow_loop_conserves.
  reflexivity.
Qed.

(** X2.  [Pipe.flow] only ever tests and reads its own reader, at most
    [2**16] bytes at a time, and only ever writes, drains, closes and awaits
    its own writer; it opens nothing and starts no task. *)
Theorem flow_stays_on_its_streams (p : Pipe) (env : pipe_env) :
  Forall (relay_action p) (fst (flow p env)).
Proof.
  rewrite flow_trace. apply Forall_app. split.
  - apply flow_loop_actions.
  - repeat constructor.
Qed.

(** X3.  [Pipe.flow] returns normally in exactly one situation: the source
    delivered non-empty chunks, every one of them was drained without
    error, the stream then ended (by [at_eof()] or by an empty read), and
    [wait_closed()] on the destination completed.  Every other run ends in an
    exception. *)
Theorem flow_returns_normally_iff (p : Pipe) (env : pipe_env) :
  snd (flow p env) = Ret tt <->
  closing env = Ok tt
  /\ exists chunks,
       Forall (fun data => data <> []) chunks
       /\ (iters env = feed chunks
           \/ exists d rest,
                iters env = feed chunks ++ Iter (Ok []) d :: rest).
Proof.
  rewrite flow_result. destruct (closing env) as [[]|e|].
  - rewrite flow_loop_returns. tauto.
  - split; [discriminate|]. intros [H _]. discriminate.
  - split; [discriminate|]. intros [H _]. discriminate.
Qed.

(** X4.  When a read on the source raises [e] after some chunks have been
    relayed, [Pipe.flow] has written exactly those chunks, reads and writes
    nothing more, closes the destination and raises [e]. *)
Theorem flow_read_failure
    (p : Pipe) (chunks : list bytes) (e : exn) (d : await unit)
    (rest : list iter) :
  Forall (fun data => data <> []) chunks ->
  flow p {| iters := feed chunks ++ Iter (Fail e) d :: rest;
            closing := Ok tt |} =
  (flat_map (relay_round p) chunks ++
   [EAtEof (reader p) false;
    ERead (reader p) chunk_size (Fail e);
    EClose (writer p); EWaitClosed (writer p) (Ok tt)],
   Exc e).
Proof.
  intros H. rewrite (surjective_pairing (flow p _)).
  rewrite flow_trace, flow_result. cbn [iters closing].
  rewrite (flow_loop_feed p _ H). cbn. now rewrite <- app_assoc.
Qed.

Lemma flow_read_failure_witness :
  Forall (fun data : bytes => data <> []) [blit "PING" ++ crlf]
  /\ snd (flow c2s {| iters := feed [blit "PING" ++ crlf]
                               ++ Iter (Fail (OSError ECONNRESET)) (Ok tt)
                               :: [];
                      closing := Ok tt |})
     = Exc (OSError ECONNRESET).
Proof.
  assert (H : Forall (fun data : bytes => data <> []) [blit "PING" ++ crlf])
    by (repeat constructor; discriminate).
  split; [exact H|].
  exact (f_equal snd
           (@flow_read_failure c2s _ (OSError ECONNRESET) (Ok tt) [] H)).
Defined.



(** X6.  A relay that is cancelled while it waits in [read] runs its
    cleanup and never returns normally: it ends with [CancelledError], or,
    when [wait_closed()] itself raises [e], with [e] in its place. *)
Theorem cancelled_flow_never_returns
    (p : Pipe) (chunks : list bytes) (d c : await unit) (rest : list iter) :
  Forall (fun data => data <> []) chunks ->
  snd (flow p {| iters := feed chunks ++ Iter Cancel d :: rest;
                 closing := c |}) =
  match c with
  | Fail e => Exc e
  | _ => Exc CancelledError
  end
  /\ closes (writer p)
       (fst (flow p {| iters := feed chunks ++ Iter Cancel d :: rest;
                       closing := c |})) = 1.
Proof.
  intros H. split.
  - now apply flow_cancelled_in_read.
  - apply flow_closes_writer.
Qed.

Lemma cancelled_flow_never_returns_witness :
  Forall (fun data : bytes => data <> []) [blit "+PONG" ++ crlf]
  /\ snd (flow s2c {| iters := feed [blit "+PONG" ++ crlf]
                               ++ Iter Cancel (Ok tt) :: [];
                      closing := Fail (OSError ECONNRESET) |})
     = Exc (OSError ECONNRESET).
Proof.
  assert (H : Forall (fun data : bytes => data <> []) [blit "+PONG" ++ crlf])
    by (repeat constructor; discriminate).
  split; [exact H|].
  exact (proj1 (@cancelled_flow_never_returns
                  s2c _ (Ok tt) (Fail (OSError ECONNRESET)) [] H)).
Defined.

(** * Further properties of the session *)

(** X7.  The relay tasks exist only after a validated authentication: if
    [Client.connect] gets as far as creating them, then the upstream
    connection opened, the AUTH command was drained, the single read
    returned [+OK\r\n], and the whole exchange lies before the first
    [create_task]. *)
Theorem relays_only_after_authentication
    (host : option pystr) (prt : Z) (pw : option pystr) (env : session_env) :
  relays_started (fst (connect ClientConn host prt pw env)) = true ->
  open_result env = Ok tt
  /\ auth_drain env = Ok tt
  /\ auth_read env = Ok ok_reply
  /\ exists cmd,
       auth_command pw = Some cmd
       /\ fst (connect ClientConn host prt pw env) =
          [ELog "client" INFO;
           EOpen host prt (Ok tt);
           ELog "client" DEBUG;
           EWrite UpstreamConn cmd;
           EDrain UpstreamConn (Ok tt);
           ERead UpstreamConn 1024 (Ok ok_reply);
           ELog "client" DEBUG] ++ fst (relaying env).
Proof.
  rewrite connect_unfold. unfold authenticate.
  unfold write, drain, read, log.
  destruct (open_result env) as [[]|e|];
    cbn -[ok_reply wrongpass relaying auth_command]; try discriminate.
  destruct (auth_command pw) as [cmd|];
    cbn -[ok_reply wrongpass relaying auth_command]; try discriminate.
  destruct (auth_drain env) as [[]|e|];
    cbn -[ok_reply wrongpass relaying auth_command]; try discriminate.
  destruct (auth_read env) as [r|e|];
    cbn -[ok_reply wrongpass relaying auth_command]; try discriminate.
  destruct (bytes_eqb r ok_reply) eqn:E;
    cbn -[ok_reply wrongpass relaying auth_command].
  - apply bytes_eqb_eq in E. subst r.
    destruct (relaying env) as [t res]. intros _.
    repeat split. now exists cmd.
  - destruct (reject_drain env) as [[]|e|]; cbn -[ok_reply wrongpass];
      discriminate.
Qed.

Lemma relays_only_after_authentication_witness :
  relays_started
    (fst (connect ClientConn (Some (lit "10.0.0.5")) 6379
            (Some (lit "secret")) both_sides_close)) = true
  /\ auth_read both_sides_close = Ok ok_reply.
Proof.
  assert (H : relays_started
                (fst (connect ClientConn (Some (lit "10.0.0.5")) 6379
                        (Some (lit "secret")) both_sides_close)) = true)
    by reflexivity.
  split; [exact H|].
  exact (proj1 (proj2 (proj2
    (@relays_only_after_authentication _ _ _ both_sides_close H)))).
Defined.

(** X8.  [authenticate] writes to the client in one case only: the AUTH
    command was encoded and drained and the read returned bytes other than
    [+OK\r\n]; what it writes then is the [-WRONGPASS] line.  In every
    other case (success, an encoding error, a failing drain or read) the
    client is written nothing. *)
Theorem notice_written_iff_reply_rejected
    (pw : option pystr) (env : session_env) :
  (written ClientConn (fst (authenticate ClientConn UpstreamConn pw env))
   = wrongpass
   <-> exists cmd r,
         auth_command pw = Some cmd
         /\ auth_drain env = Ok tt
         /\ auth_read env = Ok r
         /\ r <> ok_reply)
  /\ (written ClientConn (fst (authenticate ClientConn UpstreamConn pw env))
      = wrongpass
      \/ written ClientConn (fst (authenticate ClientConn UpstreamConn pw env))
         = []).
Proof.
  unfold authenticate, write, drain, read, log.
  destruct (auth_command pw) as [cmd|]; cbn -[ok_reply wrongpass].
  2:{ split; [|now right]. split; [discriminate|].
      intros (c & r & H & _). discriminate. }
  destruct (auth_drain env) as [[]|e|]; cbn -[ok_reply wrongpass].
  2,3: (split; [|now right]; split; [discriminate|];
        intros (c & r & _ & H & _); discriminate).
  destruct (auth_read env) as [r|e|]; cbn -[ok_reply wrongpass].
  2,3: (split; [|now right]; split; [discriminate|];
        intros (c & r & _ & _ & H & _); discriminate).
  destruct (bytes_eqb r ok_reply) eqn:E; cbn -[ok_reply wrongpass].
  - apply bytes_eqb_eq in E. subst r. split; [|now right].
    split; [discriminate|].
    intros (c & r & _ & _ & [= <-] & Hr). now destruct Hr.
  - assert (Hr : r <> ok_reply).
    { intros ->. now rewrite bytes_eqb_refl in E. }
    destruct (reject_drain env) as [[]|e|]; cbn -[ok_reply wrongpass];
      rewrite app_nil_r; (split; [|now left]);
      (split; [intros _; now exists cmd, r | reflexivity]).
Qed.

(** X9.  When the upstream cannot be reached ([open_connection] raises an
    ordinary exception), the session does nothing but log the failure and
    close the client: no AUTH is sent, no relay is created, and the client is
    written nothing before it is closed. *)
Theorem unreachable_upstream_session
    (f : UpstreamClientFactory) (env : session_env) (e : exn) :
  open_result env = Fail e ->
  is_Exception e = true ->
  handle_server f env =
  ([ELog "client-factory" INFO;
    ELog "client" INFO;
    EOpen (hostname f) (port f) (Fail e);
    ELog "server" CRITICAL;
    EClose ClientConn;
    EWaitClosed ClientConn (client_wait_closed env)],
   snd (awaited (client_wait_closed env))).
Proof.
  intros Hopen His.
  unfold handle_server, factory_connect, connect, log, close, wait_closed.
  rewrite Hopen. cbn. rewrite His. cbn.
  now destruct (client_wait_closed env) as [[]|e'|].
Qed.

Lemma unreachable_upstream_session_witness :
  open_result upstream_unreachable = Fail (OSError ECONNREFUSED)
  /\ is_Exception (OSError ECONNREFUSED) = true
  /\ snd (handle_server with_password upstream_unreachable) = Ret tt.
Proof.
  assert (H1 : open_result upstream_unreachable
               = Fail (OSError ECONNREFUSED)) by reflexivity.
  assert (H2 : is_Exception (OSError ECONNREFUSED) = true) by reflexivity.
  split; [exact H1|split; [exact H2|]].
  exact (f_equal snd
           (@unreachable_upstream_session
              with_password upstream_unreachable _ H1 H2)).
Defined.

(** X10.  When the read of the authentication reply raises an ordinary
    exception instead of returning bytes (the upstream reset the
    connection, say), no [-WRONGPASS] notice is sent: the failure is logged
    and the client connection is closed with nothing written to it, and the
    upstream writer is left unclosed. *)
Theorem failed_reply_read_closes_silently
    (f : UpstreamClientFactory) (cmd : bytes) (env : session_env) (e : exn) :
  auth_command (password f) = Some cmd ->
  open_result env = Ok tt ->
  auth_drain env = Ok tt ->
  auth_read env = Fail e ->
  is_Exception e = true ->
  fst (handle_server f env) =
    [ELog "client-factory" INFO;
     ELog "client" INFO;
     EOpen (hostname f) (port f) (Ok tt);
     ELog "client" DEBUG;
     EWrite UpstreamConn cmd;
     EDrain UpstreamConn (Ok tt);
     ERead UpstreamConn 1024 (Fail e);
     ELog "server" CRITICAL;
     EClose ClientConn;
     EWaitClosed ClientConn (client_wait_closed env)]
  /\ written ClientConn (fst (handle_server f env)) = []
  /\ closes UpstreamConn (session_events f env) = 0.
Proof.
  intros Hcmd Hopen Hdrain Hread His.
  assert (Ht : fst (handle_server f env) =
    [ELog "client-factory" INFO;
     ELog "client" INFO;
     EOpen (hostname f) (port f) (Ok tt);
     ELog "client" DEBUG;
     EWrite UpstreamConn cmd;
     EDrain UpstreamConn (Ok tt);
     ERead UpstreamConn 1024 (Fail e);
     ELog "server" CRITICAL;
     EClose ClientConn;
     EWaitClosed ClientConn (client_wait_closed env)]).
  { unfold handle_server, factory_connect, connect, authenticate.
    rewrite Hcmd, Hopen, Hdrain, Hread.
    unfold write, drain, read, log, close, wait_closed.
    cbn. rewrite His. cbn.
    now destruct (client_wait_closed env) as [[]|e'|]. }
  unfold session_events. rewrite Ht. repeat split.
Qed.

Lemma failed_reply_read_closes_silently_witness :
  auth_command (password with_password) = Some (blit "AUTH secret" ++ crlf)
  /\ is_Exception (OSError ECONNRESET) = true
  /\ written ClientConn
       (fst (handle_server with_password
               {| open_result := Ok tt;
                  auth_drain := Ok tt;
                  auth_read := Fail (OSError ECONNRESET);
                  reject_drain := Ok tt;
                  first_completed := BothDone;
                  s2c_env := {| iters := []; closing := Ok tt |};
                  c2s_env := {| iters := []; closing := Ok tt |};
                  upstream_wait_closed := Ok tt;
                  client_wait_closed := Ok tt |})) = [].
Proof.
  assert (H1 : auth_command (password with_password)
               = Some (blit "AUTH secret" ++ crlf)) by reflexivity.
  assert (H2 : is_Exception (OSError ECONNRESET) = true) by reflexivity.
  split; [exact H1|split; [exact H2|]].
  exact (proj1 (proj2
    (@failed_reply_read_closes_silently with_password _
       {| open_result := Ok tt;
          auth_drain := Ok tt;
          auth_read := Fail (OSError ECONNRESET);
          reject_drain := Ok tt;
          first_completed := BothDone;
          s2c_env := {| iters := []; closing := Ok tt |};
          c2s_env := {| iters := []; closing := Ok tt |};
          upstream_wait_closed := Ok tt;
          client_wait_closed := Ok tt |}
       _ H1 eq_refl eq_refl eq_refl H2))).
Defined.

(** X11.  When the upstream rejects the password, nobody ever closes the
    upstream writer: the session consists of the handler task alone, it
    closes the client connection and nothing else. *)
Theorem rejected_session_leaves_upstream_open
    (f : UpstreamClientFactory) (cmd r : bytes) (env : session_env) :
  auth_command (password f) = Some cmd ->
  open_result env = Ok tt ->
  auth_drain env = Ok tt ->
  auth_read env = Ok r ->
  r <> ok_reply ->
  session_events f env = fst (handle_server f env)
  /\ closes UpstreamConn (session_events f env) = 0.
Proof.
  intros Hcmd Hopen Hdrain Hread Hr.
  assert (H : relays_started (fst (handle_server f env)) = false
              /\ closes UpstreamConn (fst (handle_server f env)) = 0).
  { unfold handle_server, factory_connect, connect, authenticate.
    rewrite Hcmd, Hopen, Hdrain, Hread.
    unfold write, drain, read, log, close, wait_closed.
    cbn -[ok_reply wrongpass bytes_eqb].
    rewrite (bytes_eqb_neq Hr). cbn -[ok_reply wrongpass].
    destruct (reject_drain env) as [[]|e|]; cbn -[ok_reply wrongpass];
      try (destruct e; cbn -[ok_reply wrongpass]);
      try (destruct (client_wait_closed env) as [[]|e'|];
           cbn -[ok_reply wrongpass]);
      split; reflexivity. }
  destruct H as [Hno Hcl]. unfold session_events. rewrite Hno.
  split; [reflexivity|exact Hcl].
Qed.

Lemma rejected_session_leaves_upstream_open_witness :
  auth_command (password with_password) = Some (blit "AUTH secret" ++ crlf)
  /\ blit "-ERR invalid password" ++ crlf <> ok_reply
  /\ closes UpstreamConn (session_events with_password upstream_rejects) = 0.
Proof.
  assert (H1 : auth_command (password with_password)
               = Some (blit "AUTH secret" ++ crlf)) by reflexivity.
  assert (H5 : blit "-ERR invalid password" ++ crlf <> ok_reply)
    by discriminate.
  split; [exact H1|split; [exact H5|]].
  exact (proj2 (@rejected_session_leaves_upstream_open
                  with_password _ _ upstream_rejects
                  H1 eq_refl eq_refl eq_refl H5)).
Defined.

Section Encoding.

(** The code points UTF-8 has no encoding for: lone surrogates and values
    beyond U+10FFFF. *)
Lemma utf8_char_None (c : N) :
  utf8_char c = None <->
  ((55296 <= c /\ c <= 57343) \/ 1114112 <= c)%N.
Proof.
  unfold utf8_char.
  destruct (N.ltb_spec c 128); [split; [discriminate|lia]|].
  destruct (N.ltb_spec c 2048); [split; [discriminate|lia]|].
  destruct (N.ltb_spec c 65536).
  - destruct (N.leb_spec 55296 c), (N.leb_spec c 57343); cbn;
      split; try discriminate; try lia; auto.
  - destruct (N.ltb_spec c 1114112); [split; [discriminate|lia]|].
    split; [intros _; now right|reflexivity].
Qed.

Lemma encode_utf8_None (s : pystr) :
  encode_utf8 s = None <->
  Exists (fun c => (55296 <= c /\ c <= 57343) \/ 1114112 <= c)%N s.
Proof.
  induction s as [|c s IH]; simpl.
  - split; [discriminate|]. intros H. inversion H.
  - rewrite Exists_cons, <- IH, <- utf8_char_None.
    destruct (utf8_char c), (encode_utf8 s); split;
      try discriminate; auto; intros [H|H]; discriminate.
Qed.

Lemma byte_of_N_ascii (a : ascii) :
  byte_of_N (N_of_ascii a) = byte_of_ascii a.
Proof.
  destruct a as [[] [] [] [] [] [] [] []]; reflexivity.
Qed.

Lemma encode_utf8_ascii (l : list ascii) :
  Forall (fun a => (N_of_ascii a < 128)%N) l ->
  encode_utf8 (map N_of_ascii l) = Some (map byte_of_ascii l).
Proof.
  induction 1 as [|a l Ha _ IH]; [reflexivity|].
  simpl. rewrite IH. unfold utf8_char.
  apply N.ltb_lt in Ha. rewrite Ha. now rewrite byte_of_N_ascii.
Qed.

End Encoding.

(** X12.  The AUTH command cannot be built exactly when the configured
    password contains a lone surrogate or a value beyond U+10FFFF (what
    Python makes of undecodable command-line bytes); a missing password is
    always encodable, as the text [None]. *)
Theorem auth_command_fails_iff (pw : pystr) :
  (auth_command (Some pw) = None <->
   Exists (fun c => (55296 <= c /\ c <= 57343) \/ 1114112 <= c)%N pw)
  /\ auth_command None <> None.
Proof.
  split; [|discriminate].
  unfold auth_command, format_value. rewrite !encode_utf8_app.
  rewrite <- encode_utf8_None.
  change (encode_utf8 (lit "AUTH ")) with (Some (blit "AUTH ")).
  change (encode_utf8 [cr; lf]) with (Some crlf).
  destruct (encode_utf8 pw); split; try discriminate; auto.
Qed.

(** X13.  When the password cannot be encoded, [authenticate] raises
    before it writes a single byte: the upstream connection has been opened
    but is sent nothing and is never closed, the client is sent nothing, and
    the handler logs the error and closes the client. *)
Theorem unencodable_password_session
    (f : UpstreamClientFactory) (env : session_env) :
  auth_command (password f) = None ->
  open_result env = Ok tt ->
  handle_server f env =
  ([ELog "client-factory" INFO;
    ELog "client" INFO;
    EOpen (hostname f) (port f) (Ok tt);
    ELog "client" DEBUG;
    ELog "server" CRITICAL;
    EClose ClientConn;
    EWaitClosed ClientConn (client_wait_closed env)],
   snd (awaited (client_wait_closed env))).
Proof.
  intros Hcmd Hopen.
  unfold handle_server, factory_connect, connect, authenticate.
  rewrite Hcmd, Hopen. unfold log, close, wait_closed. cbn.
  now destruct (client_wait_closed env) as [[]|e'|].
Qed.

Lemma unencodable_password_session_witness :
  auth_command (password (mkFactory None 6379 (Some [56448%N]))) = None
  /\ open_result both_sides_close = Ok tt
  /\ snd (handle_server (mkFactory None 6379 (Some [56448%N]))
            both_sides_close) = Ret tt.
Proof.
  assert (H1 : auth_command
                 (password (mkFactory None 6379 (Some [56448%N]))) = None)
    by reflexivity.
  assert (H2 : open_result both_sides_close = Ok tt) by reflexivity.
  split; [exact H1|split; [exact H2|]].
  exact (f_equal snd
           (@unencodable_password_session
              (mkFactory None 6379 (Some [56448%N])) both_sides_close H1 H2)).
Defined.

(** X14.  For a password made of ASCII characters only, the bytes of the
    AUTH command are the characters themselves: [AUTH ], the password,
    CR LF. *)
Theorem auth_command_ascii (s : string) :
  Forall (fun a => (N_of_ascii a < 128)%N) (list_ascii_of_string s) ->
  auth_command (Some (lit s)) = Some (blit "AUTH " ++ blit s ++ crlf).
Proof.
  intros H. unfold auth_command, format_value. rewrite !encode_utf8_app.
  unfold lit at 2. rewrite (encode_utf8_ascii H). reflexivity.
Qed.

Lemma auth_command_ascii_witness :
  Forall (fun a => (N_of_ascii a < 128)%N) (list_ascii_of_string "s3cr3t")
  /\ auth_command (Some (lit "s3cr3t"))
     = Some (blit "AUTH " ++ blit "s3cr3t" ++ crlf).
Proof.
  assert (H : Forall (fun a => (N_of_ascii a < 128)%N)
                (list_ascii_of_string "s3cr3t"))
    by (repeat constructor).
  split; [exact H|].
  exact (@auth_command_ascii "s3cr3t" H).
Defined.

Section ConnectOutcome.

Variables (f : UpstreamClientFactory) (env : session_env).

Lemma relaying_never_closes_client :
  closes ClientConn (fst (relaying env)) = 0.
Proof.
  unfold relaying, gather, log, close, wait_closed.
  destruct (first_completed env); cbn -[task_result];
    try destruct (task_result env _) as [[]|e]; cbn;
    destruct (upstream_wait_closed env) as [[]|e'|]; reflexivity.
Qed.

(** Once the relays are started, [connect] is the authentication exchange
    followed by the whole of [relaying], whose result it returns. *)
Lemma connect_reaches_relaying :
  relays_started
    (fst (connect ClientConn (hostname f) (port f) (password f) env)) = true ->
  exists pre,
    connect ClientConn (hostname f) (port f) (password f) env =
      (pre ++ fst (relaying env), snd (relaying env))
    /\ closes UpstreamConn pre = 0
    /\ closes ClientConn pre = 0.
Proof.
  rewrite connect_unfold. unfold authenticate.
  unfold write, drain, read, log.
  destruct (open_result env) as [[]|e|];
    cbn -[ok_reply wrongpass relaying auth_command]; try discriminate.
  destruct (auth_command (password f)) as [cmd|];
    cbn -[ok_reply wrongpass relaying auth_command]; try discriminate.
  destruct (auth_drain env) as [[]|e|];
    cbn -[ok_reply wrongpass relaying auth_command]; try discriminate.
  destruct (auth_read env) as [r|e|];
    cbn -[ok_reply wrongpass relaying auth_command]; try discriminate.
  destruct (bytes_eqb r ok_reply);
    cbn -[ok_reply wrongpass relaying auth_command].
  - destruct (relaying env) as [t res]. intros _.
    exists [ELog "client" INFO; EOpen (hostname f) (port f) (Ok tt);
            ELog "client" DEBUG; EWrite UpstreamConn cmd;
            EDrain UpstreamConn (Ok tt); ERead UpstreamConn 1024 (Ok r);
            ELog "client" DEBUG].
    repeat split.
  - destruct (reject_drain env) as [[]|e|]; cbn -[ok_reply wrongpass];
      discriminate.
Qed.

Lemma connect_never_closes_client :
  closes ClientConn
    (fst (connect ClientConn (hostname f) (port f) (password f) env)) = 0.
Proof.
  destruct (relays_started
              (fst (connect ClientConn (hostname f) (port f) (password f) env)))
    eqn:E.
  - destruct (connect_reaches_relaying E) as (pre & -> & _ & Hpre).
    cbn [fst]. now rewrite closes_app, Hpre, relaying_never_closes_client.
  - revert E. rewrite connect_unfold. unfold authenticate.
    unfold write, drain, read, log.
    destruct (open_result env) as [[]|e|];
      cbn -[ok_reply wrongpass relaying auth_command]; try reflexivity.
    destruct (auth_command (password f)) as [cmd|];
      cbn -[ok_reply wrongpass relaying auth_command]; try reflexivity.
    destruct (auth_drain env) as [[]|e|];
      cbn -[ok_reply wrongpass relaying auth_command]; try reflexivity.
    destruct (auth_read env) as [r|e|];
      cbn -[ok_reply wrongpass relaying auth_command]; try reflexivity.
    destruct (bytes_eqb r ok_reply);
      cbn -[ok_reply wrongpass relaying auth_command].
    + destruct (relaying env) as [t res] eqn:R. cbn.
      intros _. change t with (fst (t, res)). rewrite <- R.
      apply relaying_never_closes_client.
    + destruct (reject_drain env) as [[]|e|]; reflexivity.
Qed.

End ConnectOutcome.

Lemma handle_server_client_closes
    (f : UpstreamClientFactory) (env : session_env) :
  closes ClientConn (fst (handle_server f env)) =
  match snd (connect ClientConn (hostname f) (port f) (password f) env)
  with
  | Exc CancelledError => 0
  | _ => 1
  end.
Proof.
  pose proof (connect_never_closes_client f env) as H0.
  unfold handle_server, factory_connect, log, close, wait_closed.
  rewrite bind_emit. cbn [fst snd ret bind app].
  destruct (connect ClientConn (hostname f) (port f) (password f) env)
    as [t res].
  cbn [fst snd] in *. destruct res as [[]|e]; cbn.
  - destruct (client_wait_closed env) as [[]|e'|]; cbn;
      rewrite closes_app, H0; reflexivity.
  - destruct e; cbn; try exact H0;
      destruct (client_wait_closed env) as [[]|e'|]; cbn;
      rewrite !closes_app, H0; reflexivity.
Qed.

(** X15.  [handle_server] closes the client connection exactly once, after
    [Client.connect] has returned or raised an ordinary exception, and not
    at all when [connect] ends in [CancelledError]; [connect] itself never
    closes the client. *)
Theorem handler_closes_client_unless_cancelled
    (f : UpstreamClientFactory) (env : session_env) :
  closes ClientConn
    (fst (connect ClientConn (hostname f) (port f) (password f) env)) = 0
  /\ closes ClientConn (fst (handle_server f env)) =
     match snd (connect ClientConn (hostname f) (port f) (password f) env)
     with
     | Exc CancelledError => 0
     | _ => 1
     end.
Proof.
  split.
  - apply connect_never_closes_client.
  - apply handle_server_client_closes.
Qed.

(** X16.  When a relay is still pending as the race is decided and ends in
    an exception [e] after being cancelled, [Client.connect] raises [e]
    right out of the [gather]: its last actions are the [cancel()] and the
    [gather], it never closes the upstream writer, and the outcome of the
    relay that finished first plays no part. *)
Theorem connect_raises_pending_outcome
    (f : UpstreamClientFactory) (env : session_env)
    (name : string) (e : exn) :
  relays_started
    (fst (connect ClientConn (hostname f) (port f) (password f) env)) = true ->
  pending_tasks (first_completed env) = [name] ->
  task_result env name = Exc e ->
  snd (connect ClientConn (hostname f) (port f) (password f) env) = Exc e
  /\ closes UpstreamConn
       (fst (connect ClientConn (hostname f) (port f) (password f) env)) = 0
  /\ exists pre,
       fst (connect ClientConn (hostname f) (port f) (password f) env) =
       pre ++ [ECancel name; EGather [name]].
Proof.
  intros Hstart Hp He.
  destruct (connect_reaches_relaying f env Hstart) as (pre & -> & Hpre & _).
  rewrite (@relaying_pending_raises env name e Hp He). cbn [fst snd].
  repeat split.
  - rewrite closes_app, Hpre. reflexivity.
  - exists (pre ++ [ECreateTask "s2c"; ECreateTask "c2s";
                    EWait (done_tasks (first_completed env))]).
    now rewrite <- app_assoc.
Qed.

Lemma connect_raises_pending_outcome_witness :
  relays_started
    (fst (connect ClientConn (hostname with_password) (port with_password)
            (password with_password) client_relay_fails)) = true
  /\ pending_tasks (first_completed client_relay_fails) = ["s2c"%string]
  /\ task_result client_relay_fails "s2c" = Exc CancelledError
  /\ snd (connect ClientConn (hostname with_password) (port with_password)
            (password with_password) client_relay_fails)
     = Exc CancelledError.
Proof.
  assert (H1 : relays_started
    (fst (connect ClientConn (hostname with_password) (port with_password)
            (password with_password) client_relay_fails)) = true)
    by reflexivity.
  assert (H2 : pending_tasks (first_completed client_relay_fails)
               = ["s2c"%string]) by reflexivity.
  assert (H3 : task_result client_relay_fails "s2c" = Exc CancelledError)
    by reflexivity.
  split; [exact H1|split; [exact H2|split; [exact H3|]]].
  exact (proj1 (@connect_raises_pending_outcome
                  with_password client_relay_fails _ _ H1 H2 H3)).
Defined.

(** X17.  When both relays have completed as the race is decided, nothing
    is cancelled and their outcomes are never looked at: whatever they
    returned or raised, [Client.connect] goes on to log, close the upstream
    writer and await it, and its result is that of [wait_closed()]. *)
Theorem completed_relays_outcomes_ignored
    (f : UpstreamClientFactory) (env : session_env) :
  relays_started
    (fst (connect ClientConn (hostname f) (port f) (password f) env)) = true ->
  first_completed env = BothDone ->
  snd (connect ClientConn (hostname f) (port f) (password f) env)
    = snd (awaited (upstream_wait_closed env))
  /\ exists pre,
       fst (connect ClientConn (hostname f) (port f) (password f) env) =
       pre ++ [ECreateTask "s2c"; ECreateTask "c2s";
               EWait ["s2c"%string; "c2s"%string];
               EGather [];
               ELog "client" INFO;
               EClose UpstreamConn;
               EWaitClosed UpstreamConn (upstream_wait_closed env)].
Proof.
  intros Hstart Hb.
  destruct (connect_reaches_relaying f env Hstart) as (pre & -> & _ & _).
  cbn [fst snd]. split.
  - unfold relaying, gather, log, close, wait_closed. rewrite Hb. cbn.
    now destruct (upstream_wait_closed env) as [[]|e|].
  - exists pre. now rewrite (@relaying_nothing_pending env Hb).
Qed.

Lemma completed_relays_outcomes_ignored_witness :
  relays_started
    (fst (connect ClientConn (hostname with_password) (port with_password)
            (password with_password) both_sides_close)) = true
  /\ first_completed both_sides_close = BothDone
  /\ snd (connect ClientConn (hostname with_password) (port with_password)
            (password with_password) both_sides_close) = Ret tt.
Proof.
  assert (H1 : relays_started
    (fst (connect ClientConn (hostname with_password) (port with_password)
            (password with_password) both_sides_close)) = true)
    by reflexivity.
  assert (H2 : first_completed both_sides_close = BothDone) by reflexivity.
  split; [exact H1|split; [exact H2|]].
  exact (proj1 (@completed_relays_outcomes_ignored
                  with_password both_sides_close H1 H2)).
Defined.

(** X18.  In every session that reaches the relaying phase the client
    connection is closed by the cleanup of the upstream-to-client relay,
    never by the other relay, and once more by [handle_server] unless
    [Client.connect] ended in [CancelledError]: one or two [close()] calls
    in all. *)
Theorem client_closed_by_relay_cleanup
    (f : UpstreamClientFactory) (env : session_env) :
  relays_started (fst (handle_server f env)) = true ->
  closes ClientConn (fst (s2c_task env)) = 1
  /\ closes ClientConn (fst (c2s_task env)) = 0
  /\ closes ClientConn (session_events f env)
     = 1 + closes ClientConn (fst (handle_server f env))
  /\ closes ClientConn (fst (handle_server f env)) <= 1.
Proof.
  intros Hstart.
  assert (Hs2c : closes ClientConn (fst (s2c_task env)) = 1)
    by apply (flow_closes_writer s2c).
  assert (Hc2s : closes ClientConn (fst (c2s_task env)) = 0).
  { unfold c2s_task. rewrite flow_trace, closes_app.
    now rewrite flow_loop_never_closes. }
  repeat split; auto.
  - unfold session_events. rewrite Hstart, !closes_app, Hc2s, Hs2c. lia.
  - rewrite handle_server_client_closes.
    destruct (snd (connect ClientConn (hostname f) (port f) (password f) env))
      as [[]|[]]; lia.
Qed.

Lemma client_closed_by_relay_cleanup_witness :
  relays_started (fst (handle_server with_password both_sides_close)) = true
  /\ closes ClientConn (session_events with_password both_sides_close)
     = 1 + closes ClientConn (fst (handle_server with_password both_sides_close)).
Proof.
  assert (H : relays_started
                (fst (handle_server with_password both_sides_close)) = true)
    by reflexivity.
  split; [exact H|].
  exact (proj1 (proj2 (proj2
    (@client_closed_by_relay_cleanup with_password both_sides_close H)))).
Defined.

Section CommandLine.

Lemma sum_repeat (n : nat) :
  fold_right Z.add 0%Z (repeat (-10)%Z n) = (- 10 * Z.of_nat n)%Z.
Proof.
  induction n as [|n IH]; [reflexivity|].
  cbn [repeat fold_right]. rewrite IH. lia.
Qed.

End CommandLine.

(** X19.  The logging threshold that [cli] computes is [ERROR] lowered by
    ten for every [-v]: critical records always pass, the [info] records
    (among them every relayed chunk) pass from two [-v] on, the [debug]
    records from three. *)
Theorem verbosity_threshold (o : options) :
  log_level (parse_args o) = (40 - 10 * Z.of_nat (opt_v o))%Z
  /\ enabled (parse_args o) CRITICAL = true
  /\ (enabled (parse_args o) INFO = true <-> 2 <= opt_v o)
  /\ (enabled (parse_args o) DEBUG = true <-> 3 <= opt_v o).
Proof.
  assert (H : log_level (parse_args o) = (40 - 10 * Z.of_nat (opt_v o))%Z).
  { unfold log_level, parse_args. cbn [verbosity fold_right].
    rewrite sum_repeat. unfold logging_ERROR. lia. }
  unfold enabled. rewrite H. cbn [levelno].
  repeat split; try (rewrite Z.leb_le; lia); rewrite Z.leb_le; lia.
Qed.

(** X20.  The upstream options of the command line reach the connection
    attempt unchanged: every session first opens a connection to the given
    upstream address (or to [None] when it was left out) and the given
    port, 6379 by default, and authenticates with the given password. *)
Theorem upstream_options_reach_connect (o : options) (env : session_env) :
  password (factory (main (parse_args o))) = opt_upstream_password o
  /\ exists rest,
       fst (handle_server (factory (main (parse_args o))) env) =
       [ELog "client-factory" INFO;
        ELog "client" INFO;
        EOpen (opt_upstream_address o)
              (default 6379%Z (opt_upstream_port o))
              (open_result env)] ++ rest.
Proof.
  split; [reflexivity|].
  destruct (handle_server_shape (factory (main (parse_args o))) env)
    as (tail & -> & _).
  rewrite connect_unfold. unfold log. rewrite !bind_emit. cbn [fst app].
  eexists. reflexivity.
Qed.
